(** * ZGC director and concurrent marker: a shallow embedding

    The development follows the sources under [src/hotspot/share/gc/z]:

    - [zMarkTerminateState.hpp], [zMarkTerminate.cpp]: the 64-bit
      termination word and its four transitions;
    - [zMark.cpp]: splitting of large object arrays, the restart loop of
      [ZMark::mark] and [ZMark::try_mark_object];
    - [zMarkAffinity.cpp]: the default worker/stripe affinity;
    - [zDirector.cpp]: the rules of the director and its tick.

    Machine integers are integers of [Z] with the wrap-around of their
    width written out.  A [double] is a binary64 float of the kernel
    where the rounding decides the result (the affinity), and a member of
    an interface of [double] operations in the director, which is run on
    binary64 floats and on exact rationals alike.  Debug assertions are
    modelled as failures: a function whose source asserts returns [None]
    where the assertion does not hold. *)

From Stdlib Require Import ZArith QArith Qround List FinFun Bool Lia.
From Stdlib Require Import Permutation.
From Stdlib Require PrimFloat FloatOps FloatAxioms SpecFloat Uint63.
Import ListNotations.
Local Open Scope Z_scope.

(** ** Machine arithmetic *)

Module Machine.

Definition wrap32 (x : Z) : Z := x mod 2 ^ 32.
Definition wrap64 (x : Z) : Z := x mod 2 ^ 64.

(** [~x] on a [uint32_t]. *)
Definition not32 (x : Z) : Z := wrap32 (Z.lnot x).

(** [MIN2], [MAX2] and [clamp] of [utilities/globalDefinitions.hpp],
    on integers.  ([clamp] asserts [lo <= hi]; the director only calls
    it with bounds in that order once [ConcGCThreads] is at least one
    and no cycle used more workers than that.) *)
Definition MIN2 (a b : Z) : Z := if a <? b then a else b.
Definition MAX2 (a b : Z) : Z := if b <? a then a else b.
Definition clamp (value lo hi : Z) : Z := MIN2 (MAX2 value lo) hi.

End Machine.

(** ** The termination word ([zMarkTerminateState.hpp])

    Bits 31-0 hold the active stripe flags, bits 63-32 the number of
    active workers. *)

Module ZMarkTerminateState.
Import Machine.

Record t : Type := Build { _state : Z }.

(** [ZBitField<uint64_t, T, shift, 32>::decode] and [encode], after the
    layout above ([zBitField.hpp] is not among the sources): a field is
    32 bits wide and starts at bit [shift]. *)
Definition field_decode (shift : Z) (container : Z) : Z :=
  Z.land (Z.shiftr container shift) (Z.ones 32).

Definition field_encode (shift : Z) (value : Z) : Z :=
  Z.shiftl value shift.

Definition make (nactive_workers active_stripes : Z) : t :=
  Build (Z.lor (field_encode 32 nactive_workers)
               (field_encode 0 active_stripes)).

Definition active_stripes (s : t) : Z := field_decode 0 (_state s).
Definition nactive_workers (s : t) : Z := field_decode 32 (_state s).
Definition is_cleared (s : t) : bool := _state s =? 0.

(** [operator==] *)
Definition eqb (a b : t) : bool := _state a =? _state b.

End ZMarkTerminateState.

(** ** The termination protocol ([zMarkTerminate.cpp])

    Every operation is a compare-and-swap retry loop on the termination
    word: a round computes from the word it has read, and either returns
    or tries to exchange the word; a failed exchange starts the next
    round from the word it found. *)

Module ZMarkTerminate.
Import Machine ZMarkTerminateState.

(** What one round does with the word it has read: return, try to
    exchange it for [new_state] and return on success, or fail an
    assertion. *)
Inductive round (A : Type) : Type :=
| Return (result : A)
| Exchange (new_state : t) (result : A)
| AssertionFailed.

Arguments Return {A} result.
Arguments Exchange {A} new_state result.
Arguments AssertionFailed {A}.

(** The retry loop.  [seen] lists what the exchanges that follow find in
    memory: an exchange succeeds when it finds [old_state] (or when
    nothing else is listed), and the loop goes on from what it finds
    otherwise.  The result is the answer and the word the loop leaves:
    the one it wrote, or the one it read when it returns without
    writing. *)
Fixpoint retry {A : Type} (body : t -> round A) (old_state : t)
         (seen : list t) : option (A * t) :=
  match body old_state with
  | AssertionFailed => None
  | Return result => Some (result, old_state)
  | Exchange new_state result =>
      match seen with
      | [] => Some (result, new_state)
      | prev_state :: seen' =>
          if eqb prev_state old_state then Some (result, new_state)
          else retry body prev_state seen'
      end
  end.

(** The loop when no other thread interferes: one atomic step. *)
Definition atomically {A : Type} (body : t -> round A) (old_state : t)
  : option (A * t) :=
  retry body old_state [].

(** [(uint)-1] *)
Definition _terminate : Z := wrap32 (-1).

Definition reset (nworkers : Z) : t := make nworkers 0.

Definition set_active_stripes_round (stripe_map : Z) (old_state : t)
  : round unit :=
  let old_active_stripes := active_stripes old_state in
  let new_active_stripes := Z.lor old_active_stripes stripe_map in
  if new_active_stripes =? old_active_stripes then Return tt
  else
    let old_nactive_workers := nactive_workers old_state in
    Exchange (make old_nactive_workers new_active_stripes) tt.

Definition set_active_stripes (old_state : t) (stripe_map : Z) : t :=
  match atomically (set_active_stripes_round stripe_map) old_state with
  | Some (_, state) => state
  | None => old_state
  end.

Definition has_active_stripes (state : t) : bool :=
  negb (active_stripes state =? 0).

Definition enter_idle_mode_round (stripe_map : Z) (old_state : t)
  : round bool :=
  if is_cleared old_state then AssertionFailed
  else
    let old_active_stripes := active_stripes old_state in
    let new_active_stripes := Z.land old_active_stripes (not32 stripe_map) in
    let should_idle := new_active_stripes =? old_active_stripes in
    let old_nactive_workers := nactive_workers old_state in
    let new_nactive_workers :=
      if should_idle then wrap32 (old_nactive_workers - 1)
      else old_nactive_workers in
    Exchange (make new_nactive_workers new_active_stripes) should_idle.

(** [None] is the failed [assert(!old_state.is_cleared())]. *)
Definition enter_idle_mode (old_state : t) (stripe_map : Z)
  : option (bool * t) :=
  atomically (enter_idle_mode_round stripe_map) old_state.

Definition exit_idle_mode_round (stripe_map : Z) (old_state : t)
  : round bool :=
  let old_active_stripes := active_stripes old_state in
  if Z.land old_active_stripes stripe_map =? 0 then Return false
  else
    let old_nactive_workers := nactive_workers old_state in
    if old_nactive_workers =? _terminate then Return false
    else if is_cleared old_state then AssertionFailed
    else
      let new_nactive_workers := wrap32 (old_nactive_workers + 1) in
      Exchange (make new_nactive_workers old_active_stripes) true.

Definition exit_idle_mode (old_state : t) (stripe_map : Z)
  : option (bool * t) :=
  atomically (exit_idle_mode_round stripe_map) old_state.

Definition enter_terminate_mode_round (old_state : t) : round bool :=
  let old_nactive_workers := nactive_workers old_state in
  if old_nactive_workers =? _terminate then Return true
  else
    let old_active_stripes := active_stripes old_state in
    if negb (old_nactive_workers =? 0) || negb (old_active_stripes =? 0)
    then Return false
    else Exchange (make _terminate 0) true.

Definition enter_terminate_mode (old_state : t) : option (bool * t) :=
  atomically enter_terminate_mode_round old_state.

(** What the other threads may do to a terminating word while a
    worker sleeps in [idle]: flushing threads publish stripes, other
    idle workers poll for termination or wake up.  ([enter_idle_mode]
    is not among them: only a worker that is marking runs it, and none
    is once the word is terminating.  For [idle] on any word, among
    whatever the other threads do, see [ZMarkIdle].) *)
Inductive interference : Type :=
| OtherPublishes (stripe_map : Z)
| OtherPollsTerminate
| OtherPollsExit (stripe_map : Z).

(** Stripe maps are [uint32_t] values. *)
Definition uint32_interference (i : interference) : Prop :=
  match i with
  | OtherPublishes m => 0 <= m < 2 ^ 32
  | OtherPollsTerminate => True
  | OtherPollsExit _ => True
  end.

Definition word_after {A : Type} (step : option (A * t)) (before : t) : t :=
  match step with
  | Some (_, after) => after
  | None => before
  end.

Definition interfere (s : t) (i : interference) : t :=
  match i with
  | OtherPublishes m => set_active_stripes s m
  | OtherPollsTerminate => word_after (enter_terminate_mode s) s
  | OtherPollsExit m => word_after (exit_idle_mode s m) s
  end.

Definition interfere_all (s : t) (l : list interference) : t :=
  fold_left interfere l s.

(** The wait loop of [idle], after [enter_idle_mode] said to idle.
    Each element of [naps] is one [os::naked_short_sleep(1)], with what
    the other threads did meanwhile; the loop is still asleep ([None]
    as the answer) when [naps] runs out. *)
Fixpoint idle_wait (naps : list (list interference)) (s : t)
         (stripe_map : Z) : option (option bool * t) :=
  match enter_terminate_mode s with
  | None => None
  | Some (true, s1) => Some (Some true, s1)
  | Some (false, s1) =>
      match exit_idle_mode s1 stripe_map with
      | None => None
      | Some (true, s2) => Some (Some false, s2)
      | Some (false, s2) =>
          match naps with
          | [] => Some (None, s2)
          | others :: naps' =>
              idle_wait naps' (interfere_all s2 others) stripe_map
          end
      end
  end.

Definition idle (naps : list (list interference)) (s : t)
           (stripe_map : Z) : option (option bool * t) :=
  match enter_idle_mode s stripe_map with
  | None => None
  | Some (false, s1) => Some (Some false, s1)
  | Some (true, s1) => idle_wait naps s1 stripe_map
  end.

(** What an atomic step of [body] on [word] gives. *)
Definition step_on {A : Type} (body : t -> round A) (word : t)
  : option (A * t) :=
  match body word with
  | AssertionFailed => None
  | Return result => Some (result, word)
  | Exchange new_state result => Some (result, new_state)
  end.

End ZMarkTerminate.

(** ** Alignment ([utilities/align.hpp]) on [uintptr_t] and [size_t] *)

Module Align.
Import Machine.

Definition not64 (x : Z) : Z := wrap64 (Z.lnot x).

Definition alignment_mask (alignment : Z) : Z := alignment - 1.

Definition align_down (size alignment : Z) : Z :=
  Z.land size (not64 (alignment_mask alignment)).

Definition align_up (size alignment : Z) : Z :=
  align_down (wrap64 (size + alignment_mask alignment)) alignment.

Definition is_aligned (size alignment : Z) : bool :=
  Z.land size (alignment_mask alignment) =? 0.

End Align.

(** ** Partial array entries of the mark stack

    Modelled from the spec: [ZMarkStackEntry] is declared in
    [zMarkStackEntry.hpp], which is not among the sources; the spec
    describes an entry as one word that packs an offset, a length and
    two bit flags, and its encoding as lossless for values in range.
    The word has the finalizable flag in bit 0 and the partial array
    flag in bit 1, the length in the bits above them and the offset in
    the bits above the length; the widths of the two fields are
    parameters.  A value that does not fit its field makes no entry
    ([None]). *)

Module ZMarkStackEntryWord.

Record layout : Type := Layout {
  partial_array_length_bits : Z;
  partial_array_offset_bits : Z
}.

Definition fits (bits value : Z) : bool :=
  (0 <=? value) && (value <? 2 ^ bits).

Definition field_encode (shift value : Z) : Z := Z.shiftl value shift.

Definition field_decode (shift bits container : Z) : Z :=
  Z.land (Z.shiftr container shift) (Z.ones bits).

Section Layout.
Variable l : layout.

Definition field_partial_array_length_shift : Z := 2.

Definition field_partial_array_offset_shift : Z :=
  2 + partial_array_length_bits l.

Definition partial_array_entry (offset length : Z) (finalizable : bool)
  : option Z :=
  if fits (partial_array_offset_bits l) offset
     && fits (partial_array_length_bits l) length
  then
    Some (Z.lor (Z.lor (field_encode field_partial_array_offset_shift offset)
                       (field_encode field_partial_array_length_shift length))
                (Z.lor (field_encode 1 1)
                       (field_encode 0 (Z.b2z finalizable))))
  else None.

Definition partial_array_offset (entry : Z) : Z :=
  field_decode field_partial_array_offset_shift (partial_array_offset_bits l)
               entry.

Definition partial_array_length (entry : Z) : Z :=
  field_decode field_partial_array_length_shift (partial_array_length_bits l)
               entry.

End Layout.

Definition is_partial_array (entry : Z) : bool := Z.testbit entry 1.

Definition finalizable (entry : Z) : bool := Z.testbit entry 0.

End ZMarkStackEntryWord.

(** ** Following object arrays ([zMark.cpp])

    [ZMarkPartialArrayMinSizeShift] is declared in [zGlobals.hpp] and
    [arrayOopDesc::max_array_length] in [arrayOop.hpp], which are not
    among the sources: they are parameters here, and so is the layout
    of the entries.  Addresses are heap offsets: the colour bits that
    [ZAddress::offset] strips and [ZAddress::good] restores are left
    out. *)

Module ZMarkArray.
Import Machine Align.

Definition oopSize : Z := 8.

(** A partial-array entry of the mark stack: one word. *)
Definition partial_array : Type := Z.

Section Shift.
Variable ZMarkPartialArrayMinSizeShift : Z.
Variable layout : ZMarkStackEntryWord.layout.
(** [arrayOopDesc::max_array_length(T_OBJECT)] *)
Variable max_array_length : Z.

Definition ZMarkPartialArrayMinSize : Z :=
  Z.shiftl 1 ZMarkPartialArrayMinSizeShift.

(** The range [follow_partial_array] decodes from an entry: its
    address and its size in bytes. *)
Definition partial_array_addr (entry : partial_array) : Z :=
  wrap64 (Z.shiftl (ZMarkStackEntryWord.partial_array_offset layout entry)
                   ZMarkPartialArrayMinSizeShift).

Definition partial_array_size (entry : partial_array) : Z :=
  wrap64 (ZMarkStackEntryWord.partial_array_length layout entry * oopSize).

(** The entry [push_partial_array] pushes; [None] is the failed
    assertion on the alignment of [addr], or a value that does not fit
    the entry. *)
Definition push_partial_array (addr size : Z) (finalizable : bool)
  : option partial_array :=
  if is_aligned addr ZMarkPartialArrayMinSize then
    let offset := Z.shiftr addr ZMarkPartialArrayMinSizeShift in
    let length := size / oopSize in
    ZMarkStackEntryWord.partial_array_entry layout offset length finalizable
  else None.

(** [follow_small_array] hands [(oop* )addr] and [length] to the
    array barrier; [None] is the failed assertion on [size]. *)
Definition follow_small_array (addr size : Z) : option (Z * Z) :=
  if size <=? ZMarkPartialArrayMinSize then Some (addr, size / oopSize)
  else None.

(** The loop that pushes the aligned middle parts, from
    [partial_addr] down to [middle_start]; entries are listed in the
    order they are pushed.  [None] is a failed assertion or the end
    of the fuel. *)
Fixpoint push_middle_parts (fuel : nat) (middle_start partial_addr : Z)
         (finalizable : bool) : option (list partial_array) :=
  if middle_start <? partial_addr then
    match fuel with
    | O => None
    | S fuel' =>
        let parts := 2 in
        let partial_size :=
          align_up ((partial_addr - middle_start) / parts)
                   ZMarkPartialArrayMinSize in
        let partial_addr' := wrap64 (partial_addr - partial_size) in
        match push_partial_array partial_addr' partial_size finalizable with
        | None => None
        | Some entry =>
            match push_middle_parts fuel' middle_start partial_addr'
                                    finalizable with
            | None => None
            | Some entries => Some (entry :: entries)
            end
        end
    end
  else Some [].

Definition middle_start_of (addr : Z) : Z :=
  align_up (wrap64 (addr + 1)) ZMarkPartialArrayMinSize.

(** [follow_large_array]: the entries pushed, in order, and the
    address and length of the leading part that is followed;
    [None] is a failed assertion or the end of the fuel. *)
Definition follow_large_array (fuel : nat) (addr size : Z)
           (finalizable : bool) : option (list partial_array * (Z * Z)) :=
  if negb (size <=? wrap64 (max_array_length * oopSize)) then None
  else if negb (ZMarkPartialArrayMinSize <? size) then None
  else
    let start := addr in
    let end_ := wrap64 (start + size) in
    let middle_start := middle_start_of start in
    let middle_size :=
      align_down (wrap64 (end_ - middle_start)) ZMarkPartialArrayMinSize in
    let middle_end := wrap64 (middle_start + middle_size) in
    let trailing :=
      if middle_end <? end_ then
        let trailing_addr := middle_end in
        let trailing_size := wrap64 (end_ - middle_end) in
        match push_partial_array trailing_addr trailing_size finalizable with
        | None => None
        | Some entry => Some [entry]
        end
      else Some [] in
    match trailing with
    | None => None
    | Some pushed_trailing =>
        match push_middle_parts fuel middle_start middle_end finalizable with
        | None => None
        | Some pushed_middle =>
            if negb (start <? middle_start) then None
            else
              let leading_addr := start in
              let leading_size := wrap64 (middle_start - start) in
              match follow_small_array leading_addr leading_size with
              | None => None
              | Some followed =>
                  Some (pushed_trailing ++ pushed_middle, followed)
              end
        end
    end.

(** [follow_array] either follows the whole array or splits it. *)
Definition follow_array (fuel : nat) (addr size : Z) (finalizable : bool)
  : option (list partial_array * (Z * Z)) :=
  if size <=? ZMarkPartialArrayMinSize then
    match follow_small_array addr size with
    | None => None
    | Some followed => Some ([], followed)
    end
  else follow_large_array fuel addr size finalizable.




End Shift.

End ZMarkArray.

(** ** Conversions between integers and [double] *)

Module Double.

(** [(double)n] for an unsigned [n] below [2^63], rounded to nearest. *)
Definition of_unsigned (n : Z) : PrimFloat.float :=
  PrimFloat.of_uint63 (Uint63.of_Z n).

(** The integer part of a finite [double], rounding toward zero: the
    conversion of a [double] to an integer type.  (Infinities and NaN,
    where C++ leaves the conversion undefined, give [0].) *)
Definition truncate (x : PrimFloat.float) : Z :=
  match FloatOps.Prim2SF x with
  | SpecFloat.S754_finite sign m e =>
      let magnitude :=
        if 0 <=? e then Z.pos m * 2 ^ e else Z.pos m / 2 ^ (- e) in
      if sign then - magnitude else magnitude
  | _ => 0
  end.

(** The least integer that is not below a finite [double]. *)
Definition ceiling (x : PrimFloat.float) : Z :=
  match FloatOps.Prim2SF x with
  | SpecFloat.S754_finite sign m e =>
      if 0 <=? e then
        if sign then - (Z.pos m * 2 ^ e) else Z.pos m * 2 ^ e
      else if sign then - (Z.pos m / 2 ^ (- e))
      else - ((- Z.pos m) / 2 ^ (- e))
  | _ => 0
  end.

(** [ceil]: a [double] with a non-negative exponent, a zero, an
    infinity and NaN are their own ceiling; below [2^53] the ceiling is
    an integer that converts exactly, with the sign of [x] when it is
    zero. *)
Definition ceil (x : PrimFloat.float) : PrimFloat.float :=
  match FloatOps.Prim2SF x with
  | SpecFloat.S754_finite sign m e =>
      if 0 <=? e then x
      else
        let c := ceiling x in
        if c <? 0 then PrimFloat.opp (of_unsigned (- c))
        else if sign then PrimFloat.neg_zero
        else of_unsigned c
  | _ => x
  end.

(** The [double] nearest to the decimal literal [num / den]: the
    division rounds to nearest, as the compiler does for the literal. *)
Definition decimal (num den : Z) : PrimFloat.float :=
  PrimFloat.div (of_unsigned num) (of_unsigned den).

(** The integer part of a rational, rounding toward zero. *)
Definition truncate_exact (x : Q) : Z := Z.quot (Qnum x) (Z.pos (Qden x)).

End Double.

(** ** Stripe maps

    Modelled from the spec: [ZMarkStripeMap] is declared in
    [zMarkStack.hpp], which is not among the sources; the spec describes
    it as a 32-bit bitmap in which bit [i] stands for stripe [i]. *)

Module ZMarkStripeMap.
Import Machine.

Definition empty : Z := 0.

Definition set (map : Z) (index : Z) : Z :=
  Z.lor map (wrap32 (Z.shiftl 1 index)).

Definition get (map : Z) (index : Z) : bool := Z.testbit map index.

End ZMarkStripeMap.

(** ** Default worker/stripe affinity ([zMarkAffinity.cpp]) *)

Module ZMarkAffinity.
Import Machine.

(** [(nworkers / nstripes) * nstripes] in [size_t]. *)
Definition spillover_limit (nstripes nworkers : Z) : Z :=
  wrap64 ((nworkers / nstripes) * nstripes).

(** The index of a spillover worker: the product of a [size_t] and a
    [double], converted back to [size_t]. *)
Definition spillover_index (nstripes spillover_nworkers
                            spillover_worker_id : Z) : Z :=
  let spillover_chunk :=
    PrimFloat.div (Double.of_unsigned nstripes)
                  (Double.of_unsigned spillover_nworkers) in
  wrap64 (Double.truncate
            (PrimFloat.mul (Double.of_unsigned spillover_worker_id)
                           spillover_chunk)).

Definition select_stripe (nstripes nworkers worker_id : Z) : Z :=
  let spillover_limit := spillover_limit nstripes nworkers in
  if worker_id <? spillover_limit then
    Z.land worker_id (wrap64 (nstripes - 1))
  else
    let spillover_nworkers := wrap64 (nworkers - spillover_limit) in
    let spillover_worker_id := wrap64 (worker_id - spillover_limit) in
    spillover_index nstripes spillover_nworkers spillover_worker_id.

(** The loop [for (i = 0; i < nstripes; i++) _stripe_map.set(i)]. *)
Definition steal_from_all (nstripes : Z) : Z :=
  fold_left ZMarkStripeMap.set
            (map Z.of_nat (seq 0 (Z.to_nat nstripes)))
            ZMarkStripeMap.empty.

(** [set_default_affinity]: the index of the home stripe and the
    stripe map; [None] is the failed [assert(index < nstripes)]. *)
Definition set_default_affinity (nstripes nworkers worker_id : Z)
  : option (Z * Z) :=
  let index := select_stripe nstripes nworkers worker_id in
  if index <? nstripes then Some (index, steal_from_all nstripes)
  else None.

Definition worker_ids (nworkers : Z) : list Z :=
  map Z.of_nat (seq 0 (Z.to_nat nworkers)).

(** The workers below the spillover limit whose home is [stripe]. *)
Definition natural_workers (nstripes nworkers stripe : Z) : list Z :=
  filter (fun worker_id =>
            (worker_id <? spillover_limit nstripes nworkers) &&
            match set_default_affinity nstripes nworkers worker_id with
            | Some (index, _) => index =? stripe
            | None => false
            end)
         (worker_ids nworkers).

(** All the spillover cases of up to 32 stripes. *)
Definition stripe_counts : list Z := [1; 2; 4; 8; 16; 32].

Definition below (n : Z) : list Z := map Z.of_nat (seq 0 (Z.to_nat n)).

Definition spillover_cases_agree : bool :=
  forallb (fun nstripes =>
    forallb (fun spillover_nworkers =>
      forallb (fun spillover_worker_id =>
        spillover_index nstripes spillover_nworkers spillover_worker_id
        =? (spillover_worker_id * nstripes) / spillover_nworkers)
        (below spillover_nworkers))
      (below nstripes))
    stripe_counts.

End ZMarkAffinity.

(** ** The restart loop of [ZMark::mark] ([zMark.cpp])

    [ZMarkRestartMax] is declared in [zGlobals.hpp], which is not among
    the sources: it is a parameter.  What the worker threads and the
    flushed threads do is the environment of the loop: each round of the
    loop is given the termination word the mark task leaves behind and
    the stripe maps the flushed threads publish. *)

Module ZMark.
Import Machine.

Record t : Type := Build {
  _terminate : ZMarkTerminateState.t;
  _nrestart : Z;
  _ncomplete : Z;
  _ncontinue : Z
}.

Inductive event : Type :=
| RunConcurrentRoots
| RunMarkTask
| FlushVMAndJavaThreads.

Definition is_mark_task (e : event) : bool :=
  match e with
  | RunMarkTask => true
  | _ => false
  end.

Record round : Type := Round {
  left_by_mark_task : ZMarkTerminateState.t;
  published_by_flush : list Z
}.

(** [_flush.vm_and_java_threads()]: every flushed thread publishes
    its stripes ([ZMark::flush], [ZMark::publish]). *)
Definition flush_threads (word : ZMarkTerminateState.t) (published : list Z)
  : ZMarkTerminateState.t :=
  fold_left ZMarkTerminate.set_active_stripes published word.

Section RestartMax.
Variable ZMarkRestartMax : Z.

Definition max_restarts (mark : t) : Z :=
  wrap32 (ZMarkRestartMax * wrap32 (_ncontinue mark + 1)).

(** [prepare_mark] resets the three counters. *)
Definition prepare_mark (mark : t) : t :=
  Build (_terminate mark) 0 0 0.

(** [end], when [complete] answers [false]: one more continuation. *)
Definition continue_mark (mark : t) : t :=
  Build (_terminate mark) (_nrestart mark) (_ncomplete mark)
        (wrap32 (_ncontinue mark + 1)).

Definition restart (mark : t) (published : list Z)
  : bool * t * list event :=
  let max := max_restarts mark in
  if _nrestart mark =? max then (false, mark, [])
  else
    let word := flush_threads (_terminate mark) published in
    if ZMarkTerminate.has_active_stripes word then
      (true,
       Build word (wrap32 (_nrestart mark + 1))
             (_ncomplete mark) (_ncontinue mark),
       [FlushVMAndJavaThreads])
    else
      (false,
       Build word (_nrestart mark) (_ncomplete mark) (_ncontinue mark),
       [FlushVMAndJavaThreads]).

(** The [do ... while (restart())] loop; round [i] of the environment
    is the next one.  [None] is the end of the fuel. *)
Fixpoint mark_loop (fuel : nat) (env : nat -> round) (i : nat) (mark : t)
  : option (t * list event) :=
  match fuel with
  | O => None
  | S fuel' =>
      let ran :=
        Build (left_by_mark_task (env i)) (_nrestart mark)
              (_ncomplete mark) (_ncontinue mark) in
      let '(again, mark', flushed) :=
        restart ran (published_by_flush (env i)) in
      if again then
        match mark_loop fuel' env (S i) mark' with
        | None => None
        | Some (mark'', events) =>
            Some (mark'', RunMarkTask :: flushed ++ events)
        end
      else Some (mark', RunMarkTask :: flushed)
  end.

Definition mark (fuel : nat) (env : nat -> round) (initial : bool)
           (m : t) : option (t * list event) :=
  match mark_loop fuel env 0 m with
  | None => None
  | Some (m', events) =>
      Some (m', if initial then RunConcurrentRoots :: events else events)
  end.

Definition mark_task_runs (events : list event) : Z :=
  Z.of_nat (length (filter is_mark_task events)).

(** The counters stay within the bound of [restart]. *)
Definition within_limit (mark : t) : Prop :=
  0 <= _ncontinue mark < 2 ^ 32 - 1 /\
  0 <= ZMarkRestartMax /\
  ZMarkRestartMax * (_ncontinue mark + 1) < 2 ^ 32 /\
  0 <= _nrestart mark <= ZMarkRestartMax * (_ncontinue mark + 1).

End RestartMax.

End ZMark.

(** ** Marking one object ([zMark.cpp])

    Pages, the page table and the objects are outside the sources: the
    marker uses them through the operations of [Heap]. *)

Module ZMarkObject.
Import Machine.

Class Heap : Type := {
  ZPage : Type;
  (** the mark bits and live counters of all pages *)
  marking : Type;
  (** [_page_table->get(addr)] *)
  page_table_get : Z -> ZPage;
  (** [page->is_allocating()] *)
  is_allocating : ZPage -> bool;
  (** [page->mark_object(addr, finalizable, inc_live)]: whether the
      mark succeeded, [inc_live], and the mark bits afterwards *)
  mark_object : ZPage -> Z -> bool -> marking -> bool * bool * marking;
  object_alignment : ZPage -> Z;
  (** [ZUtils::object_size(addr)] *)
  object_size : Z -> Z;
  (** [ZOop::from_address(addr)->is_objArray()] *)
  is_array : Z -> bool
}.

(** A mark stack entry: an object, or a partial array. *)
Inductive ZMarkStackEntry : Type :=
| Object (object_address : Z) (follow finalizable : bool)
| Partial (entry : ZMarkArray.partial_array).

(** What [mark_and_follow] goes on to follow. *)
Inductive followed : Type :=
| FollowPartialArray (entry : ZMarkArray.partial_array)
| FollowArrayObject (addr : Z) (finalizable : bool)
| FollowObject (addr : Z) (finalizable : bool).

Section WithHeap.
Context {heap : Heap}.

(** The live bytes a worker has cached: [cache->inc_live(page, n)]
    adds an entry. *)
Definition ZMarkCache : Type := list (ZPage * Z).

Definition align_up_object (size alignment : Z) : Z :=
  Align.align_up size alignment.

Definition try_mark_object (marks : marking) (cache : ZMarkCache)
           (addr : Z) (finalizable : bool)
  : bool * marking * ZMarkCache :=
  let page := page_table_get addr in
  if is_allocating page then (false, marks, cache)
  else
    let '(success, inc_live, marks') :=
      mark_object page addr finalizable marks in
    if inc_live then
      let size := object_size addr in
      let aligned_size := align_up_object size (object_alignment page) in
      (success, marks', (page, aligned_size) :: cache)
    else (success, marks', cache).

Definition mark_and_follow (marks : marking) (cache : ZMarkCache)
           (entry : ZMarkStackEntry)
  : marking * ZMarkCache * list followed :=
  match entry with
  | Partial partial => (marks, cache, [FollowPartialArray partial])
  | Object addr follow finalizable =>
      let '(success, marks', cache') :=
        try_mark_object marks cache addr finalizable in
      if negb success then (marks', cache', [])
      else if is_array addr then
        if follow then (marks', cache', [FollowArrayObject addr finalizable])
        else (marks', cache', [])
      else (marks', cache', [FollowObject addr finalizable])
  end.

End WithHeap.

(** A heap of two pages of 2M, where the second page is allocating and
    marks are a list of addresses. *)
Definition two_pages : Heap := {|
  ZPage := Z;
  marking := list Z;
  page_table_get := fun addr => addr / 2097152;
  is_allocating := fun page => page =? 1;
  mark_object := fun page addr finalizable marks =>
    if existsb (Z.eqb addr) marks then (false, false, marks)
    else (true, true, addr :: marks);
  object_alignment := fun _ => 8;
  object_size := fun _ => 24;
  is_array := fun _ => false
|}.

End ZMarkObject.

(** ** The director ([zDirector.cpp])

    The rules compute in [double].  They are written once, over the
    operations of [DoubleOps], and run on the binary64 floats of the
    kernel ([binary64]) and on exact rationals ([exact]). *)

Module ZDirector.
Import Machine.

Class DoubleOps (D : Type) : Type := {
  add : D -> D -> D;
  sub : D -> D -> D;
  mul : D -> D -> D;
  div : D -> D -> D;
  (** [x < y] and [x <= y] *)
  ltb : D -> D -> bool;
  leb : D -> D -> bool;
  ceil : D -> D;
  (** [(double)n] for an unsigned integer *)
  of_unsigned : Z -> D;
  (** [(uint)x] and [(size_t)x] *)
  to_uint : D -> Z;
  to_size : D -> Z;
  (** the decimal literal [num / den] *)
  decimal : Z -> Z -> D
}.

(** Out of the range of the integer type, where C++ leaves the
    conversion undefined, the conversions wrap. *)
#[export] Instance binary64 : DoubleOps PrimFloat.float := {|
  add := PrimFloat.add;
  sub := PrimFloat.sub;
  mul := PrimFloat.mul;
  div := PrimFloat.div;
  ltb := PrimFloat.ltb;
  leb := PrimFloat.leb;
  ceil := Double.ceil;
  of_unsigned := Double.of_unsigned;
  to_uint := fun x => wrap32 (Double.truncate x);
  to_size := fun x => wrap64 (Double.truncate x);
  decimal := Double.decimal
|}.

(** Exact arithmetic: no rounding, and a quotient by zero is zero. *)
#[export] Instance exact : DoubleOps Q := {|
  add := Qplus;
  sub := Qminus;
  mul := Qmult;
  div := Qdiv;
  ltb := fun x y => negb (Qle_bool y x);
  leb := Qle_bool;
  ceil := fun x => inject_Z (Qceiling x);
  of_unsigned := inject_Z;
  to_uint := fun x => wrap32 (Double.truncate_exact x);
  to_size := fun x => wrap64 (Double.truncate_exact x);
  decimal := fun num den => Qmake num (Z.to_pos den)
|}.

Inductive Cause : Type :=
| _no_gc
| _z_allocation_stall
| _z_warmup
| _z_timer
| _z_allocation_rate
| _z_high_usage
| _z_proactive.

Definition Cause_eqb (a b : Cause) : bool :=
  match a, b with
  | _no_gc, _no_gc
  | _z_allocation_stall, _z_allocation_stall
  | _z_warmup, _z_warmup
  | _z_timer, _z_timer
  | _z_allocation_rate, _z_allocation_rate
  | _z_high_usage, _z_high_usage
  | _z_proactive, _z_proactive => true
  | _, _ => false
  end.

Record ZDriverRequest : Type := Request {
  cause : Cause;
  nworkers : Z
}.

(** Modelled from the spec: the sampling frequency of
    [ZStatAllocRate] ([zStat.hpp] is not among the sources), 10 Hz. *)
Definition sample_hz : Z := 10.

Section Rules.
Context {D : Type} {ops : DoubleOps D}.

(** What the rules read: the heap, the statistics and the flags. *)
Record State : Type := {
  (** [ZHeap] and [ZHeuristics] *)
  soft_max_capacity : Z;
  used : Z;
  has_alloc_stalled : bool;
  relocation_headroom : Z;
  (** [ZStatAllocRate] *)
  avg : D;
  sd : D;
  (** [ZStatCycle] *)
  is_warm : bool;
  nwarmup_cycles : Z;
  is_time_trustable : bool;
  time_since_last : D;
  last_active_workers : Z;
  serial_time_davg : D;
  serial_time_dsd : D;
  parallelizable_time_davg : D;
  parallelizable_time_dsd : D;
  (** [ZStatHeap] *)
  used_at_relocate_end : Z;
  (** flags *)
  ConcGCThreads : Z;
  ZAllocationSpikeTolerance : D;
  ZCollectionInterval : D;
  ZProactive : bool;
  UseDynamicNumberOfGCThreads : bool;
  UseNewCode : bool;
  (** the worker count of a request that is built from a cause alone
      ([zDriver.hpp] is not among the sources) *)
  default_nworkers : Z
}.

Definition zero : D := of_unsigned 0.
Definition one : D := of_unsigned 1.
Definition one_in_1000 : D := decimal 3290527 1000000.
Definition sample_interval : D := div one (of_unsigned sample_hz).

(** [MIN2], [MAX2] on [double] *)
Definition MIN2d (a b : D) : D := if ltb a b then a else b.
Definition MAX2d (a b : D) : D := if ltb b a then a else b.

Variable s : State.

(** [ZDriverRequest(GCCause::Cause)] *)
Definition of_cause (c : Cause) : ZDriverRequest :=
  Request c (default_nworkers s).

Definition rule_allocation_stall : ZDriverRequest :=
  let stall_since_last_gc := has_alloc_stalled s in
  if negb stall_since_last_gc then of_cause _no_gc
  else of_cause _z_allocation_stall.

Definition rule_warmup : ZDriverRequest :=
  if is_warm s then of_cause _no_gc
  else
    let used_threshold_percent :=
      mul (of_unsigned (wrap32 (nwarmup_cycles s + 1))) (decimal 1 10) in
    let used_threshold :=
      to_size (mul (of_unsigned (soft_max_capacity s))
                   used_threshold_percent) in
    if used s <? used_threshold then of_cause _no_gc
    else of_cause _z_warmup.

Definition rule_timer : ZDriverRequest :=
  if leb (ZCollectionInterval s) zero then of_cause _no_gc
  else
    let time_since_last_gc := time_since_last s in
    let time_until_gc := sub (ZCollectionInterval s) time_since_last_gc in
    if ltb zero time_until_gc then of_cause _no_gc
    else of_cause _z_timer.

Definition estimated_gc_workers
           (serial_gc_time parallelizable_gc_time time_until_deadline : D)
  : D :=
  let parallelizable_time_until_deadline :=
    MAX2d (sub time_until_deadline serial_gc_time) (decimal 1 1000) in
  div parallelizable_gc_time parallelizable_time_until_deadline.

Definition discrete_gc_workers (gc_workers : D) : Z :=
  clamp (to_uint (ceil gc_workers)) 1 (ConcGCThreads s).

Definition select_gc_workers
           (serial_gc_time parallelizable_gc_time time_until_oom : D) : D :=
  let avoid_long_gc_workers :=
    estimated_gc_workers serial_gc_time parallelizable_gc_time
                         (of_unsigned 10) in
  let avoid_oom_gc_workers :=
    estimated_gc_workers serial_gc_time parallelizable_gc_time
                         time_until_oom in
  let gc_workers := MAX2d avoid_long_gc_workers avoid_oom_gc_workers in
  let actual_gc_workers := discrete_gc_workers gc_workers in
  let last_gc_workers := last_active_workers s in
  if actual_gc_workers <? last_gc_workers then
    let gc_duration_delta :=
      sub (div parallelizable_gc_time (of_unsigned actual_gc_workers))
          (div parallelizable_gc_time (of_unsigned last_gc_workers)) in
    let additional_time_for_allocations :=
      sub (sub (time_since_last s) gc_duration_delta) sample_interval in
    let next_time_until_oom :=
      add time_until_oom additional_time_for_allocations in
    let next_avoid_oom_gc_workers :=
      estimated_gc_workers serial_gc_time parallelizable_gc_time
                           next_time_until_oom in
    let next_gc_workers :=
      MAX2d avoid_long_gc_workers next_avoid_oom_gc_workers in
    MIN2d (ceil (add next_gc_workers (decimal 50 100)))
          (of_unsigned last_gc_workers)
  else gc_workers.

(** The free memory, the relocation headroom taken off. *)
Definition free_memory : Z :=
  let free_including_headroom :=
    soft_max_capacity s - MIN2 (soft_max_capacity s) (used s) in
  free_including_headroom
  - MIN2 free_including_headroom (relocation_headroom s).

Definition serial_gc_time : D :=
  add (serial_time_davg s) (mul (serial_time_dsd s) one_in_1000).

Definition parallelizable_gc_time : D :=
  add (parallelizable_time_davg s)
      (mul (parallelizable_time_dsd s) one_in_1000).

Definition rule_allocation_rate_dynamic : ZDriverRequest :=
  if negb (is_time_trustable s) then of_cause _no_gc
  else
    let free := free_memory in
    let alloc_rate_avg := avg s in
    let alloc_rate_sd := sd s in
    let alloc_rate_sd_percent :=
      div alloc_rate_sd (add alloc_rate_avg one) in
    let alloc_rate_steady := ltb alloc_rate_sd_percent (decimal 15 100) in
    let alloc_rate :=
      add (add (mul alloc_rate_avg (ZAllocationSpikeTolerance s))
               (mul alloc_rate_sd one_in_1000))
          one in
    let time_until_oom := div (of_unsigned free) alloc_rate in
    let time_until_oom :=
      if negb alloc_rate_steady
      then div time_until_oom (add one alloc_rate_sd_percent)
      else time_until_oom in
    let gc_workers :=
      select_gc_workers serial_gc_time parallelizable_gc_time
                        time_until_oom in
    let gc_workers :=
      if negb alloc_rate_steady
      then MAX2d gc_workers (of_unsigned (last_active_workers s))
      else gc_workers in
    let actual_gc_workers := discrete_gc_workers gc_workers in
    let actual_gc_duration :=
      add serial_gc_time
          (div parallelizable_gc_time (of_unsigned actual_gc_workers)) in
    let last_gc_workers := last_active_workers s in
    let more_safety_for_fewer_workers :=
      mul (of_unsigned (wrap32 (ConcGCThreads s - actual_gc_workers)))
          sample_interval in
    let time_until_gc :=
      sub (sub (sub time_until_oom actual_gc_duration) sample_interval)
          more_safety_for_fewer_workers in
    if (actual_gc_workers <=? last_gc_workers) && ltb zero time_until_gc
    then Request _no_gc actual_gc_workers
    else Request _z_allocation_rate actual_gc_workers.

(** The older variant of the dynamic rule.  Its [watermark],
    [margin] and [used_percent] are only logged (and so are
    [used_high] and [max_capacity], which only they read): they are
    left out, as is the adjustment under [if (false && ...)]. *)
Definition rule_allocation_rate_dynamic_orig : ZDriverRequest :=
  if negb (is_time_trustable s) then of_cause _no_gc
  else
    let sd_factor := decimal 3290527 1000000 in
    let alloc_rate :=
      add (add (mul (avg s) (ZAllocationSpikeTolerance s))
               (mul (sd s) sd_factor))
          one in
    let mutator_max :=
      wrap64 (soft_max_capacity s - relocation_headroom s) in
    let alloc_rate_sd_percent := div (sd s) (add (avg s) one) in
    let used_bytes := used s in
    let free_bytes :=
      if used_bytes <? mutator_max then wrap64 (mutator_max - used_bytes)
      else 0 in
    let time_till_oom :=
      MAX2d (sub (div (of_unsigned free_bytes) alloc_rate) sample_interval)
            (decimal 1 1000) in
    let cputime_total := add serial_gc_time parallelizable_gc_time in
    let previous_n := last_active_workers s in
    let target_max_walltime := of_unsigned 10 in
    let alloc_rate_sd_threshold := decimal 15 100 in
    let min_n :=
      clamp (to_uint (ceil (div cputime_total target_max_walltime)))
            1 (ConcGCThreads s) in
    let '(time_till_oom, n) :=
      if leb alloc_rate_sd_threshold alloc_rate_sd_percent then
        let time_till_oom :=
          div time_till_oom (add one alloc_rate_sd_percent) in
        let n_ideal := div cputime_total time_till_oom in
        (time_till_oom,
         clamp (to_uint (ceil n_ideal)) (MAX2 min_n previous_n)
               (ConcGCThreads s))
      else
        let n_ideal := div cputime_total time_till_oom in
        let n := clamp (to_uint (ceil n_ideal)) min_n (ConcGCThreads s) in
        if n <? previous_n then
          let gc_duration_delta :=
            mul cputime_total
                (sub (div one (of_unsigned n))
                     (div one (of_unsigned previous_n))) in
          let additional_time_for_allocations_to_happen :=
            sub (sub (time_since_last s) gc_duration_delta)
                sample_interval in
          let next_time_till_oom :=
            add time_till_oom additional_time_for_allocations_to_happen in
          let n_ideal_next_gc :=
            div cputime_total
                (MAX2d next_time_till_oom (decimal 1 1000)) in
          (time_till_oom,
           clamp (to_uint (ceil (add n_ideal_next_gc (decimal 50 100))))
                 min_n previous_n)
        else (time_till_oom, n) in
    let suggested_n := n in
    let extra :=
      add sample_interval
          (mul (of_unsigned (wrap32 (ConcGCThreads s - n)))
               sample_interval) in
    let time_till_gc :=
      sub time_till_oom (add (div cputime_total (of_unsigned n)) extra) in
    let ret := (previous_n <? n) || leb time_till_gc zero in
    if ret then Request _z_allocation_rate suggested_n
    else Request _no_gc suggested_n.

Definition rule_allocation_rate_static : ZDriverRequest :=
  if negb (is_time_trustable s) then of_cause _no_gc
  else
    let free := free_memory in
    let max_alloc_rate :=
      add (mul (avg s) (ZAllocationSpikeTolerance s))
          (mul (sd s) one_in_1000) in
    let time_until_oom :=
      div (of_unsigned free) (add max_alloc_rate one) in
    let gc_duration :=
      add serial_gc_time
          (div parallelizable_gc_time (of_unsigned (ConcGCThreads s))) in
    let time_until_gc :=
      sub (sub time_until_oom gc_duration) sample_interval in
    if ltb zero time_until_gc then of_cause _no_gc
    else of_cause _z_allocation_rate.

(** Both dynamic variants are run; [UseNewCode] picks the answer. *)
Definition rule_allocation_rate : ZDriverRequest :=
  if UseDynamicNumberOfGCThreads s then
    let a := rule_allocation_rate_dynamic_orig in
    let b := rule_allocation_rate_dynamic in
    if UseNewCode s then b else a
  else rule_allocation_rate_static.

(** [percent_of] of [utilities/globalDefinitions.hpp] *)
Definition percent_of (numerator denominator : Z) : D :=
  if negb (denominator =? 0) then
    mul (div (of_unsigned numerator) (of_unsigned denominator))
        (of_unsigned 100)
  else zero.

Definition rule_high_usage : ZDriverRequest :=
  let free := free_memory in
  let free_percent := percent_of free (soft_max_capacity s) in
  if ltb (of_unsigned 5) free_percent then of_cause _no_gc
  else of_cause _z_high_usage.

Definition rule_proactive : ZDriverRequest :=
  if negb (ZProactive s) || negb (is_warm s) then of_cause _no_gc
  else
    let used_after_last_gc := used_at_relocate_end s in
    let used_increase_threshold :=
      to_size (mul (of_unsigned (soft_max_capacity s)) (decimal 10 100)) in
    let used_threshold :=
      wrap64 (used_after_last_gc + used_increase_threshold) in
    let time_since_last_gc := time_since_last s in
    let time_since_last_gc_threshold := of_unsigned (5 * 60) in
    if (used s <? used_threshold)
       && ltb time_since_last_gc time_since_last_gc_threshold
    then of_cause _no_gc
    else
      let assumed_throughput_drop_during_gc := decimal 50 100 in
      let acceptable_throughput_drop := decimal 1 100 in
      let gc_duration :=
        add serial_gc_time
            (div parallelizable_gc_time
                 (of_unsigned (ConcGCThreads s))) in
      let acceptable_gc_interval :=
        mul gc_duration
            (sub (div assumed_throughput_drop_during_gc
                      acceptable_throughput_drop)
                 one) in
      let time_until_gc := sub acceptable_gc_interval time_since_last_gc in
      if ltb zero time_until_gc then of_cause _no_gc
      else of_cause _z_proactive.

(** The rules, by name, in the order of the array [rules]. *)
Inductive ZDirectorRule : Type :=
| allocation_stall
| warmup
| timer
| allocation_rate
| high_usage
| proactive.

Definition rules : list ZDirectorRule :=
  [allocation_stall; warmup; timer; allocation_rate; high_usage;
   proactive].

Definition call (rule : ZDirectorRule) : ZDriverRequest :=
  match rule with
  | allocation_stall => rule_allocation_stall
  | warmup => rule_warmup
  | timer => rule_timer
  | allocation_rate => rule_allocation_rate
  | high_usage => rule_high_usage
  | proactive => rule_proactive
  end.

(** What one tick does, in order. *)
Inductive action : Type :=
| SampleAllocationRate
| Execute (rule : ZDirectorRule)
| Collect (request : ZDriverRequest).

(** The loop over [rules]: the request returned and the rules
    executed. *)
Fixpoint execute_rules (remaining : list ZDirectorRule)
  : ZDriverRequest * list action :=
  match remaining with
  | [] => (of_cause _no_gc, [])
  | rule :: remaining' =>
      let request := call rule in
      if negb (Cause_eqb (cause request) _no_gc) then
        (request, [Execute rule])
      else
        let '(decision, executed) := execute_rules remaining' in
        (decision, Execute rule :: executed)
  end.

Definition make_gc_decision : ZDriverRequest * list action :=
  execute_rules rules.

(** The body of the loop of [run_service], for one tick on which
    [_driver->is_busy()] answers [is_busy]. *)
Definition tick (is_busy : bool) : list action :=
  SampleAllocationRate ::
  (if negb is_busy then
     let '(request, executed) := make_gc_decision in
     if negb (Cause_eqb (cause request) _no_gc) then
       executed ++ [Collect request]
     else executed
   else []).

Definition fires (rule : ZDirectorRule) : bool :=
  negb (Cause_eqb (cause (call rule)) _no_gc).

(** The rules up to the first that fires, that one included. *)
Fixpoint up_to_first (l : list ZDirectorRule) : list ZDirectorRule :=
  match l with
  | [] => []
  | rule :: l' => if fires rule then [rule] else rule :: up_to_first l'
  end.

Definition samples (actions : list action) : list action :=
  filter (fun a => match a with SampleAllocationRate => true | _ => false end)
         actions.

Definition collected (actions : list action) : list ZDriverRequest :=
  flat_map (fun a => match a with Collect r => [r] | _ => [] end) actions.

Definition executed (actions : list action) : list ZDirectorRule :=
  flat_map (fun a => match a with Execute rule => [rule] | _ => [] end)
           actions.

(** A request that asks for a collection. *)
Definition is_request (request : ZDriverRequest) : bool :=
  negb (Cause_eqb (cause request) _no_gc).

(** The requests up to the first that asks for a collection, that one
    included. *)
Fixpoint through_first (l : list ZDriverRequest) : list ZDriverRequest :=
  match l with
  | [] => []
  | request :: l' =>
      if is_request request then [request]
      else request :: through_first l'
  end.

(** *** The dynamic rule in the words of the spec *)

Definition spec_sd_percent : D := div (sd s) (add (avg s) one).

(** "the allocation rate is not steady (sd/(avg+1.0) >= 0.15)" *)
Definition spec_not_steady : bool := leb (decimal 15 100) spec_sd_percent.

Definition spec_time_until_oom : D :=
  let time_until_oom :=
    div (of_unsigned free_memory)
        (add (add (mul (avg s) (ZAllocationSpikeTolerance s))
                  (mul (sd s) one_in_1000))
             one) in
  if spec_not_steady then div time_until_oom (add one spec_sd_percent)
  else time_until_oom.

Definition spec_n : D :=
  let n :=
    select_gc_workers serial_gc_time parallelizable_gc_time
                      spec_time_until_oom in
  if spec_not_steady then MAX2d n (of_unsigned (last_active_workers s))
  else n.

Definition spec_actual : Z :=
  clamp (to_uint (ceil spec_n)) 1 (ConcGCThreads s).

Definition spec_time_until_gc : D :=
  sub (sub (sub spec_time_until_oom
                (add serial_gc_time
                     (div parallelizable_gc_time
                          (of_unsigned spec_actual))))
           sample_interval)
      (mul (of_unsigned (ConcGCThreads s - spec_actual)) sample_interval).





(** The two comparisons of the rule decide: neither operand is a
    NaN. *)
Definition comparable (x y : D) : Prop := leb y x = negb (ltb x y).

End Rules.

Arguments State D : clear implicits.

(** The loop of [run_service]: a tick for every tick of the metronome,
    each with the state it finds and whether the driver is busy. *)
Definition run_service {D : Type} {ops : DoubleOps D}
           (ticks : list (State D * bool)) : list (list action) :=
  map (fun found => tick (fst found) (snd found)) ticks.

(** The second director scenario of the spec: a warm heap of 4G with
    [free] bytes left, an allocation rate of 500M/s (+/- 20M/s), four
    workers in the last cycle of eight. *)
Definition scenario (free : Z) : State PrimFloat.float := {|
  soft_max_capacity := 4294967296;
  used := 4294967296 - free;
  has_alloc_stalled := false;
  relocation_headroom := 0;
  avg := Double.of_unsigned 524288000;
  sd := Double.of_unsigned 20971520;
  is_warm := true;
  nwarmup_cycles := 3;
  is_time_trustable := true;
  time_since_last := Double.of_unsigned 1;
  last_active_workers := 4;
  serial_time_davg := Double.decimal 5 100;
  serial_time_dsd := Double.of_unsigned 0;
  parallelizable_time_davg := Double.decimal 40 100;
  parallelizable_time_dsd := Double.of_unsigned 0;
  used_at_relocate_end := 0;
  ConcGCThreads := 8;
  ZAllocationSpikeTolerance := Double.of_unsigned 2;
  ZCollectionInterval := Double.of_unsigned 0;
  ZProactive := false;
  UseDynamicNumberOfGCThreads := true;
  UseNewCode := true;
  default_nworkers := 8
|}.

(** An idle heap with long cycles: nothing is allocated, a cycle takes
    9s of serial and 5s of parallelizable time, one worker ran the last
    cycle of four, and [UseNewCode] is off, as it is by default. *)
Definition long_cycles : State PrimFloat.float := {|
  soft_max_capacity := 1073741824;
  used := 1073741724;
  has_alloc_stalled := false;
  relocation_headroom := 0;
  avg := Double.of_unsigned 0;
  sd := Double.of_unsigned 0;
  is_warm := true;
  nwarmup_cycles := 3;
  is_time_trustable := true;
  time_since_last := Double.of_unsigned 1;
  last_active_workers := 1;
  serial_time_davg := Double.of_unsigned 9;
  serial_time_dsd := Double.of_unsigned 0;
  parallelizable_time_davg := Double.of_unsigned 5;
  parallelizable_time_dsd := Double.of_unsigned 0;
  used_at_relocate_end := 0;
  ConcGCThreads := 4;
  ZAllocationSpikeTolerance := Double.of_unsigned 2;
  ZCollectionInterval := Double.of_unsigned 0;
  ZProactive := false;
  UseDynamicNumberOfGCThreads := true;
  UseNewCode := false;
  default_nworkers := 4
|}.

End ZDirector.

(** ** The termination protocol among the workers of a mark task

    The workers of a [ZMarkTask<ZMarkContext>] share one termination
    word.  A worker is marking, waits in the loop of [idle], or has left
    [idle] with [true].  (The end context, whose workers may also leave
    on a timeout, is not part of this model.) *)

Module ZMarkWorkers.
Import Machine ZMarkTerminateState ZMarkTerminate.

Inductive status : Type :=
| Marking
| Waiting
| Terminated.

Definition status_eqb (a b : status) : bool :=
  match a, b with
  | Marking, Marking | Waiting, Waiting | Terminated, Terminated => true
  | _, _ => false
  end.

Record system : Type := System {
  word : t;
  workers : list status
}.

(** What a thread does next.  A flushing thread publishes stripes
    ([ZMark::publish]); worker [i] calls [idle] when it has drained and
    found nothing to steal, and then polls in the loop of [idle]. *)
Inductive operation : Type :=
| Publish (stripe_map : Z)
| EnterIdle (i : nat) (stripe_map : Z)
| PollTerminate (i : nat)
| PollExit (i : nat) (stripe_map : Z).

Fixpoint set_status (i : nat) (v : status) (l : list status) : list status :=
  match l, i with
  | [], _ => []
  | _ :: l', O => v :: l'
  | u :: l', S i' => u :: set_status i' v l'
  end.

Definition count (c : status) (l : list status) : Z :=
  Z.of_nat (length (filter (status_eqb c) l)).

(** [ZMarkTask]'s constructor resets the word; every worker starts
    marking. *)
Definition start (nworkers : nat) : system :=
  System (reset (Z.of_nat nworkers)) (repeat Marking nworkers).

(** One action.  An action of a worker that is not in the state for it
    changes nothing; [None] is a failed assertion. *)
Definition step (sys : system) (a : operation) : option system :=
  match a with
  | Publish m => Some (System (set_active_stripes (word sys) m) (workers sys))
  | EnterIdle i m =>
      match nth_error (workers sys) i with
      | Some Marking =>
          match enter_idle_mode (word sys) m with
          | None => None
          | Some (true, w) =>
              Some (System w (set_status i Waiting (workers sys)))
          | Some (false, w) => Some (System w (workers sys))
          end
      | _ => Some sys
      end
  | PollTerminate i =>
      match nth_error (workers sys) i with
      | Some Waiting =>
          match enter_terminate_mode (word sys) with
          | None => None
          | Some (true, w) =>
              Some (System w (set_status i Terminated (workers sys)))
          | Some (false, w) => Some (System w (workers sys))
          end
      | _ => Some sys
      end
  | PollExit i m =>
      match nth_error (workers sys) i with
      | Some Waiting =>
          match exit_idle_mode (word sys) m with
          | None => None
          | Some (true, w) =>
              Some (System w (set_status i Marking (workers sys)))
          | Some (false, w) => Some (System w (workers sys))
          end
      | _ => Some sys
      end
  end.

Fixpoint run (sys : system) (actions : list operation) : option system :=
  match actions with
  | [] => Some sys
  | a :: actions' =>
      match step sys a with
      | None => None
      | Some sys' => run sys' actions'
      end
  end.

(** Stripe maps are [uint32_t] values. *)
Definition uint32_action (a : operation) : Prop :=
  match a with
  | Publish m | EnterIdle _ m | PollExit _ m => 0 <= m < 2 ^ 32
  | PollTerminate _ => True
  end.

(** The word counts the marking workers until it terminates, and no
    worker marks once it has. *)
Definition consistent (sys : system) : Prop :=
  Z.of_nat (length (workers sys)) < 2 ^ 32 - 1 /\
  (nactive_workers (word sys) <> _terminate ->
   nactive_workers (word sys) = count Marking (workers sys) /\
   count Terminated (workers sys) = 0) /\
  (nactive_workers (word sys) = _terminate ->
   count Marking (workers sys) = 0).

End ZMarkWorkers.

(** ** [idle] among the other threads ([zMarkTerminate.cpp])

    While a worker sleeps in [idle] the other workers and the flushing
    threads go on with the termination word: marking workers enter idle
    mode, idle workers poll, threads publish stripes.  Here a sleep may
    leave any word at all. *)

Module ZMarkIdle.
Import Machine ZMarkTerminateState ZMarkTerminate.

(** The wait loop of [idle]; each element of [naps] is what one
    [os::naked_short_sleep(1)] makes of the word, and the loop is still
    asleep ([None] as the answer) when [naps] runs out. *)
Fixpoint idle_wait_among (naps : list (t -> t)) (s : t) (stripe_map : Z)
  : option (option bool * t) :=
  match enter_terminate_mode s with
  | None => None
  | Some (true, s1) => Some (Some true, s1)
  | Some (false, s1) =>
      match exit_idle_mode s1 stripe_map with
      | None => None
      | Some (true, s2) => Some (Some false, s2)
      | Some (false, s2) =>
          match naps with
          | [] => Some (None, s2)
          | nap :: naps' => idle_wait_among naps' (nap s2) stripe_map
          end
      end
  end.

Definition idle_among (naps : list (t -> t)) (s : t) (stripe_map : Z)
  : option (option bool * t) :=
  match enter_idle_mode s stripe_map with
  | None => None
  | Some (false, s1) => Some (Some false, s1)
  | Some (true, s1) => idle_wait_among naps s1 stripe_map
  end.

(** During a sleep another worker, still marking, enters idle mode. *)
Definition other_enters_idle (stripe_map : Z) (s : t) : t :=
  word_after (enter_idle_mode s stripe_map) s.

(** During a sleep the other threads publish and poll. *)
Definition others_interfere (others : list interference) (s : t) : t :=
  interfere_all s others.

End ZMarkIdle.

(** ** Following an object array to the end ([zMark.cpp])

    [mark_and_follow] hands a partial-array entry to
    [follow_partial_array], which decodes it and follows it as an array
    of its own; the entries that pushes are followed in turn.  Where a
    pushed entry goes among the pending ones (which stripe, which stack,
    which worker pops it) is left to [schedule]. *)

Module ZMarkArrayDrain.
Import Machine Align ZMarkArray.



Section Shift.
Variable ZMarkPartialArrayMinSizeShift : Z.
Variable layout : ZMarkStackEntryWord.layout.
Variable max_array_length : Z.

Definition follow_partial_array (fuel : nat) (entry : partial_array)
  : option (list partial_array * (Z * Z)) :=
  let addr := partial_array_addr ZMarkPartialArrayMinSizeShift layout entry in
  let size := partial_array_size layout entry in
  follow_array ZMarkPartialArrayMinSizeShift layout max_array_length
               fuel addr size (ZMarkStackEntryWord.finalizable entry).






Variable schedule :
  list partial_array -> list partial_array -> list partial_array.

(** Pop an entry, follow it, schedule what that pushes, until nothing
    is pending: the ranges followed, in order.  [None] is a failed
    assertion or the end of [rounds] or [fuel]. *)
Fixpoint drain_partial_arrays (rounds fuel : nat)
         (pending : list partial_array) : option (list (Z * Z)) :=
  match pending with
  | [] => Some []
  | entry :: rest =>
      match rounds with
      | O => None
      | S rounds' =>
          match follow_partial_array fuel entry with
          | None => None
          | Some (pushed, followed) =>
              match drain_partial_arrays rounds' fuel (schedule pushed rest)
              with
              | None => None
              | Some l => Some (followed :: l)
              end
          end
      end
  end.

(** [follow_array] on the elements of an array object, and then
    everything that pushes. *)
Definition follow_array_to_end (rounds fuel : nat) (addr size : Z)
           (finalizable : bool) : option (list (Z * Z)) :=
  match follow_array ZMarkPartialArrayMinSizeShift layout max_array_length
                     fuel addr size finalizable
  with
  | None => None
  | Some (pushed, followed) =>
      match drain_partial_arrays rounds fuel (schedule pushed []) with
      | None => None
      | Some l => Some (followed :: l)
      end
  end.

End Shift.

(** A stack: what is pushed last is popped first. *)
Definition lifo (pushed rest : list partial_array) : list partial_array :=
  rev pushed ++ rest.

End ZMarkArrayDrain.
(** ** A marking cycle ([zMark.cpp]): [mark], [complete] and [end]

    The calls come from the driver, which is not among the sources: a
    cycle is any sequence of calls of [mark] and [end] after
    [prepare_mark].  [ZVerifyMarking] is off. *)

Module ZMarkCycle.
Import Machine ZMark.

(** [complete]: [_flush.all_threads()], then, with stripes active, one
    serial mark task, which leaves [left_by_mark_task] in the
    termination word. *)
Definition complete (mark : t) (published : list Z)
           (left_by_mark_task : ZMarkTerminateState.t) : bool * t :=
  let word := flush_threads (_terminate mark) published in
  let mark' :=
    if ZMarkTerminate.has_active_stripes word then
      Build left_by_mark_task (_nrestart mark)
            (wrap32 (_ncomplete mark + 1)) (_ncontinue mark)
    else
      Build word (_nrestart mark) (_ncomplete mark) (_ncontinue mark) in
  (negb (ZMarkTerminate.has_active_stripes (_terminate mark')), mark').

(** [ZMark::end] *)
Definition end_ (mark : t) (published : list Z)
           (left_by_mark_task : ZMarkTerminateState.t) : bool * t :=
  let '(completed, mark') := complete mark published left_by_mark_task in
  if negb completed then (false, continue_mark mark') else (true, mark').

Inductive driver_call : Type :=
| CallMark (initial : bool) (env : nat -> round)
| CallEnd (published : list Z) (left_by_mark_task : ZMarkTerminateState.t).

Inductive outcome : Type :=
| Marked (events : list event)
| Ended (completed : bool).

Section RestartMax.
Variable ZMarkRestartMax : Z.

Fixpoint run_calls (fuel : nat) (calls : list driver_call) (m : t)
  : option (t * list outcome) :=
  match calls with
  | [] => Some (m, [])
  | CallMark initial env :: rest =>
      match mark ZMarkRestartMax fuel env initial m with
      | None => None
      | Some (m', events) =>
          match run_calls fuel rest m' with
          | None => None
          | Some (m'', outcomes) => Some (m'', Marked events :: outcomes)
          end
      end
  | CallEnd published left_by_mark_task :: rest =>
      let '(completed, m') := end_ m published left_by_mark_task in
      match run_calls fuel rest m' with
      | None => None
      | Some (m'', outcomes) => Some (m'', Ended completed :: outcomes)
      end
  end.

End RestartMax.

(** Runs of the concurrent mark task, calls of [mark], and calls of
    [end] that answered [false]. *)
Fixpoint concurrent_runs (outcomes : list outcome) : Z :=
  match outcomes with
  | [] => 0
  | Marked events :: rest => mark_task_runs events + concurrent_runs rest
  | Ended _ :: rest => concurrent_runs rest
  end.

Fixpoint marks (outcomes : list outcome) : Z :=
  match outcomes with
  | [] => 0
  | Marked _ :: rest => 1 + marks rest
  | Ended _ :: rest => marks rest
  end.

Fixpoint continuations (outcomes : list outcome) : Z :=
  match outcomes with
  | [] => 0
  | Ended false :: rest => 1 + continuations rest
  | _ :: rest => continuations rest
  end.

End ZMarkCycle.
(** ** The number of stripes ([zMark.cpp])

    [ZMarkStripesMax] is declared in [zGlobals.hpp], which is not among
    the sources: it is a parameter. *)

Module ZMarkStripes.
Import Machine.

(** Modelled from the spec: [round_down_power_of_2] is declared in
    [powerOfTwo.hpp], which is not among the sources; the spec
    describes the number of stripes as the largest power of two that is
    not above the number of workers, capped. *)
Definition round_down_power_of_2 (value : Z) : Z :=
  Z.shiftl 1 (Z.log2 value).

Section StripesMax.
Variable ZMarkStripesMax : Z.

Definition calculate_nstripes (nworkers : Z) : Z :=
  let nstripes := round_down_power_of_2 nworkers in
  MIN2 nstripes ZMarkStripesMax.

(** [prepare_mark] sets the number of stripes; [work] then makes the
    affinity of each worker from it. *)
Definition worker_affinity (nworkers worker_id : Z) : option (Z * Z) :=
  ZMarkAffinity.set_default_affinity (calculate_nstripes nworkers)
                                     nworkers worker_id.

End StripesMax.

End ZMarkStripes.
(** ** The contexts of the mark task ([zMarkContext.hpp],
    [zMarkContext.inline.hpp], [zMarkContext.cpp])

    [os::elapsed_counter()] is the environment: the constructor and
    every call of [should_timeout] are given what the clock shows at
    that moment.  [ZMarkStripesMax] and the value of
    [TimeHelper::micros_to_counter(ZMarkEndTimeout)] are parameters. *)

Module ZMarkContext.

Definition nvictim_stripes : Z := 3.

Definition should_timeout : bool := false.

End ZMarkContext.

Module ZMarkEndContext.
Import Machine.

Record t : Type := Build {
  _timeout_start : Z;
  _timeout_end : Z;
  _timeout_check_interval : Z;
  _timeout_check_count : Z;
  _timeout_check_at : Z;
  _timeout_expired : bool
}.

Definition construct (elapsed_counter timeout : Z) : t :=
  let timeout_start := wrap64 elapsed_counter in
  let timeout_end := wrap64 (timeout_start + wrap64 timeout) in
  let timeout_check_interval := 100 in
  Build timeout_start timeout_end timeout_check_interval 0
        timeout_check_interval false.

Definition nvictim_stripes (ZMarkStripesMax : Z) : Z := ZMarkStripesMax.

(** Whether the next call of [should_timeout] reads the clock. *)
Definition reads_clock (c : t) : bool :=
  wrap64 (_timeout_check_count c + 1) =? _timeout_check_at c.

Definition should_timeout (elapsed_counter : Z) (c : t) : bool * t :=
  let count := wrap64 (_timeout_check_count c + 1) in
  let c' :=
    if count =? _timeout_check_at c then
      let now := wrap64 elapsed_counter in
      if _timeout_end c <=? now then
        Build (_timeout_start c) (_timeout_end c)
              (_timeout_check_interval c) count (_timeout_check_at c) true
      else
        Build (_timeout_start c) (_timeout_end c)
              (_timeout_check_interval c) count
              (wrap64 (_timeout_check_at c + _timeout_check_interval c))
              (_timeout_expired c)
    else
      Build (_timeout_start c) (_timeout_end c)
            (_timeout_check_interval c) count (_timeout_check_at c)
            (_timeout_expired c) in
  (_timeout_expired c', c').

(** The context after the first [n] calls of [should_timeout], where
    [clock i] is what the clock shows during call number [i]. *)
Fixpoint after_calls (clock : nat -> Z) (n : nat) (c : t) : t :=
  match n with
  | O => c
  | S n' => snd (should_timeout (clock n) (after_calls clock n' c))
  end.

(** The answer of call number [n], for [n] from 1. *)
Definition answer (clock : nat -> Z) (n : nat) (c : t) : bool :=
  fst (should_timeout (clock n) (after_calls clock (pred n) c)).

(** The calls among the first [n] whose number is a multiple of the
    check interval. *)
Definition checked_calls (n : nat) : list nat :=
  filter (fun i => (i mod 100 =? 0)%nat) (seq 1 n).

(** Whether the clock has reached the end of the timeout in one of
    those. *)
Definition deadline_seen (clock : nat -> Z) (c : t) (n : nat) : bool :=
  existsb (fun i => _timeout_end c <=? wrap64 (clock i)) (checked_calls n).

End ZMarkEndContext.

(** * Properties *)

(** ** Bit fields of the termination word *)

Module ZMarkTerminateFacts.
Import Machine ZMarkTerminateState ZMarkTerminate.

Lemma uint32_iff (x : Z) : 0 <= x < 2 ^ 32 <-> Z.land x (Z.ones 32) = x.
Proof.
  rewrite Z.land_ones by lia. split.
  - intros Hx. apply Z.mod_small. exact Hx.
  - intros <-. apply Z.mod_pos_bound. lia.
Qed.

Lemma testbit_uint32_high (s i : Z) :
  0 <= s < 2 ^ 32 -> 32 <= i -> Z.testbit s i = false.
Proof.
  intros Hs Hi. rewrite <- (Z.mod_small s (2 ^ 32)) by exact Hs.
  apply Z.mod_pow2_bits_high. lia.
Qed.

Lemma land_shiftl_low (n s : Z) :
  0 <= s < 2 ^ 32 -> Z.land (Z.shiftl n 32) s = 0.
Proof.
  intros Hs. apply Z.bits_inj'. intros i Hi.
  rewrite Z.land_spec, Z.bits_0.
  destruct (Z.ltb_spec i 32) as [Hlt | Hge].
  - rewrite Z.shiftl_spec_low by lia. reflexivity.
  - rewrite (testbit_uint32_high s i Hs Hge). apply andb_false_r.
Qed.

Lemma lor_shiftl_add (n s : Z) :
  0 <= s < 2 ^ 32 -> Z.lor (Z.shiftl n 32) s = n * 2 ^ 32 + s.
Proof.
  intros Hs.
  rewrite <- Z.lxor_lor by (apply land_shiftl_low; exact Hs).
  rewrite <- Z.add_nocarry_lxor by (apply land_shiftl_low; exact Hs).
  rewrite Z.shiftl_mul_pow2 by lia. reflexivity.
Qed.

Lemma field_decode_range (shift c : Z) :
  0 <= field_decode shift c < 2 ^ 32.
Proof.
  unfold field_decode. rewrite Z.land_ones by lia.
  apply Z.mod_pos_bound. lia.
Qed.

Lemma make_state (n s : Z) :
  0 <= s < 2 ^ 32 -> _state (make n s) = n * 2 ^ 32 + s.
Proof.
  intros Hs. unfold make, field_encode. cbn [_state].
  rewrite (Z.shiftl_0_r s). apply lor_shiftl_add. exact Hs.
Qed.

Lemma active_stripes_make (n s : Z) :
  0 <= s < 2 ^ 32 -> active_stripes (make n s) = s.
Proof.
  intros Hs. unfold active_stripes, field_decode.
  rewrite make_state by exact Hs.
  rewrite Z.shiftr_0_r, Z.land_ones by lia.
  rewrite Z.add_comm, Z.mod_add by lia.
  apply Z.mod_small. exact Hs.
Qed.

Lemma nactive_workers_make (n s : Z) :
  0 <= n < 2 ^ 32 -> 0 <= s < 2 ^ 32 -> nactive_workers (make n s) = n.
Proof.
  intros Hn Hs. unfold nactive_workers, field_decode.
  rewrite make_state by exact Hs.
  rewrite Z.shiftr_div_pow2, Z.land_ones by lia.
  rewrite Z.div_add_l by lia.
  rewrite (Z.div_small s) by exact Hs.
  rewrite Z.add_0_r. apply Z.mod_small. exact Hn.
Qed.

Lemma wrap32_range (x : Z) : 0 <= wrap32 x < 2 ^ 32.
Proof. unfold wrap32. apply Z.mod_pos_bound. lia. Qed.

Lemma terminate_value : _terminate = 2 ^ 32 - 1.
Proof. reflexivity. Qed.

Lemma land_range (a b : Z) : 0 <= a < 2 ^ 32 -> 0 <= Z.land a b < 2 ^ 32.
Proof.
  intros Ha. apply uint32_iff. apply uint32_iff in Ha.
  rewrite <- Ha at 2.
  rewrite <- !Z.land_assoc. f_equal. apply Z.land_comm.
Qed.

Lemma lor_range (a b : Z) :
  0 <= a < 2 ^ 32 -> 0 <= b < 2 ^ 32 -> 0 <= Z.lor a b < 2 ^ 32.
Proof.
  intros Ha Hb. apply uint32_iff. apply uint32_iff in Ha, Hb.
  rewrite Z.land_lor_distr_l, Ha, Hb. reflexivity.
Qed.

(** The 32-bit complement agrees with the mathematical one under a
    mask of 32 bits. *)
Lemma land_not32 (a m : Z) :
  0 <= a < 2 ^ 32 -> Z.land a (not32 m) = Z.land a (Z.lnot m).
Proof.
  intros Ha. unfold not32, wrap32.
  rewrite <- Z.land_ones by lia.
  rewrite (Z.land_comm (Z.lnot m)), Z.land_assoc.
  apply uint32_iff in Ha. rewrite Ha. reflexivity.
Qed.

Lemma active_stripes_range (s : t) : 0 <= active_stripes s < 2 ^ 32.
Proof. apply field_decode_range. Qed.

Lemma nactive_workers_range (s : t) : 0 <= nactive_workers s < 2 ^ 32.
Proof. apply field_decode_range. Qed.

Lemma is_cleared_fields (s : t) :
  is_cleared s = true -> nactive_workers s = 0 /\ active_stripes s = 0.
Proof.
  unfold is_cleared, nactive_workers, active_stripes. intros H.
  apply Z.eqb_eq in H. rewrite H. split; reflexivity.
Qed.

(** ** Retry loops *)

Lemma atomically_step {A : Type} (body : t -> round A) (word : t) :
  atomically body word = step_on body word.
Proof.
  unfold atomically, step_on. cbn [retry].
  destruct (body word); reflexivity.
Qed.

(** Whatever the failed exchanges find, a retry loop does what one
    atomic step does on one of the words it read: the last one. *)
Lemma retry_linearizes {A : Type} (body : t -> round A) (seen : list t) :
  forall old_state,
  exists word,
    In word (old_state :: seen) /\
    retry body old_state seen = step_on body word.
Proof.
  induction seen as [| prev_state seen IH]; intros old_state.
  - exists old_state. split; [left; reflexivity |].
    apply (atomically_step body old_state).
  - cbn [retry]. destruct (body old_state) as [r | n r |] eqn:Hbody.
    + exists old_state. split; [left; reflexivity |].
      unfold step_on. rewrite Hbody. reflexivity.
    + destruct (eqb prev_state old_state).
      * exists old_state. split; [left; reflexivity |].
        unfold step_on. rewrite Hbody. reflexivity.
      * destruct (IH prev_state) as [word [Hin Hrun]].
        exists word. split; [right; exact Hin | exact Hrun].
    + exists old_state. split; [left; reflexivity |].
      unfold step_on. rewrite Hbody. reflexivity.
Qed.

(** ** [enter_terminate_mode] *)

Lemma enter_terminate_mode_cases (s : t) :
  enter_terminate_mode s
  = Some (if nactive_workers s =? _terminate then (true, s)
          else if negb (nactive_workers s =? 0)
                  || negb (active_stripes s =? 0)
               then (false, s)
               else (true, make _terminate 0)).
Proof.
  unfold enter_terminate_mode. rewrite atomically_step.
  unfold step_on, enter_terminate_mode_round.
  destruct (nactive_workers s =? _terminate); [reflexivity |].
  destruct (negb (nactive_workers s =? 0) || negb (active_stripes s =? 0));
    reflexivity.
Qed.

(** C4, as stated, fails on a word that is already terminating: the
    call answers [true] although [nactive_workers] is the sentinel, not
    zero. *)
Lemma enter_terminate_mode_already_terminating :
  let s0 := make _terminate 0 in
  enter_terminate_mode s0 = Some (true, s0) /\
  ~ (enter_terminate_mode s0 = Some (true, s0) ->
     active_stripes s0 = 0 /\ nactive_workers s0 = 0).
Proof.
  split; [reflexivity |].
  intros H. destruct (H eq_refl) as [_ Hn]. vm_compute in Hn. discriminate Hn.
Qed.

(** A terminating word with stripes flagged arises when a thread
    publishes after termination; the call answers [true] on it and
    leaves it as it is. *)
Example enter_terminate_mode_after_publish :
  set_active_stripes (make _terminate 0) 1 = make _terminate 1 /\
  enter_terminate_mode (make _terminate 1) = Some (true, make _terminate 1).
Proof. split; reflexivity. Qed.

(** C4, amended: [enter_terminate_mode] answers [true] exactly when the
    word is already terminating or both fields are zero; after [true]
    the worker count is the sentinel, the word being [(TERMINATE, 0)]
    when this call made the transition and left as it was when it was
    already terminating; after [false] the word is unchanged. *)
Theorem enter_terminate_mode_spec (s : t) :
  exists r s',
    enter_terminate_mode s = Some (r, s') /\
    (r = true <->
       nactive_workers s = _terminate \/
       (active_stripes s = 0 /\ nactive_workers s = 0)) /\
    (r = true -> nactive_workers s' = _terminate) /\
    (r = true -> nactive_workers s <> _terminate -> s' = make _terminate 0) /\
    (nactive_workers s = _terminate -> s' = s) /\
    (r = false -> s' = s).
Proof.
  rewrite enter_terminate_mode_cases.
  destruct (Z.eqb_spec (nactive_workers s) _terminate) as [Ht | Ht].
  { exists true, s. intuition congruence. }
  destruct (Z.eqb_spec (nactive_workers s) 0) as [Hn | Hn];
    destruct (Z.eqb_spec (active_stripes s) 0) as [Ha | Ha];
    cbn [negb orb].
  - assert (Hm : nactive_workers (make _terminate 0) = _terminate)
      by reflexivity.
    exists true, (make _terminate 0). intuition congruence.
  - exists false, s. intuition congruence.
  - exists false, s. intuition congruence.
  - exists false, s. intuition congruence.
Qed.

(** ** [enter_idle_mode] *)

(** C5: on a word that is not cleared, [enter_idle_mode] computes
    [new_stripes = active_stripes & ~map]; when that changes nothing it
    takes one off [nactive_workers] (in [uint] arithmetic), keeps the
    stripes and answers [true]; otherwise it stores [new_stripes],
    keeps [nactive_workers] and answers [false]. *)
Theorem enter_idle_mode_spec (s : t) (map : Z) :
  is_cleared s = false ->
  let new_stripes := Z.land (active_stripes s) (Z.lnot map) in
  exists s',
    enter_idle_mode s map = Some (new_stripes =? active_stripes s, s') /\
    (new_stripes = active_stripes s ->
       nactive_workers s' = wrap32 (nactive_workers s - 1) /\
       (0 < nactive_workers s ->
          nactive_workers s' = nactive_workers s - 1) /\
       active_stripes s' = active_stripes s) /\
    (new_stripes <> active_stripes s ->
       active_stripes s' = new_stripes /\
       nactive_workers s' = nactive_workers s).
Proof.
  intros Hc new_stripes.
  pose proof (active_stripes_range s) as Ha.
  pose proof (nactive_workers_range s) as Hn.
  unfold enter_idle_mode. rewrite atomically_step.
  unfold step_on, enter_idle_mode_round. rewrite Hc.
  rewrite (land_not32 _ map Ha). fold new_stripes.
  assert (Hr : 0 <= new_stripes < 2 ^ 32) by (apply land_range; exact Ha).
  eexists. split; [reflexivity |].
  destruct (Z.eqb_spec new_stripes (active_stripes s)) as [He | He].
  - split; [| intros Hne; congruence]. intros _.
    pose proof (wrap32_range (nactive_workers s - 1)) as Hw.
    rewrite nactive_workers_make, active_stripes_make by assumption.
    repeat split; [| exact He].
    intros Hpos. unfold wrap32. apply Z.mod_small. lia.
  - split; [intros Heq; congruence |]. intros _.
    rewrite nactive_workers_make, active_stripes_make by assumption.
    split; reflexivity.
Qed.

Lemma enter_idle_mode_spec_witness :
  exists s',
    enter_idle_mode (make 2 5) 2
    = Some (Z.land (active_stripes (make 2 5)) (Z.lnot 2)
              =? active_stripes (make 2 5), s').
Proof.
  destruct (enter_idle_mode_spec (make 2 5) 2 eq_refl) as [s' [H _]].
  exists s'. exact H.
Defined.

Example enter_idle_mode_clears_stripes :
  enter_idle_mode (make 2 5) 1 = Some (false, make 2 4) /\
  enter_idle_mode (make 2 4) 1 = Some (true, make 1 4).
Proof. split; reflexivity. Qed.

(** ** [exit_idle_mode] and the wait loop *)

Lemma exit_idle_mode_terminating (s : t) (map : Z) :
  nactive_workers s = _terminate -> exit_idle_mode s map = Some (false, s).
Proof.
  intros Ht. unfold exit_idle_mode. rewrite atomically_step.
  unfold step_on, exit_idle_mode_round.
  destruct (Z.land (active_stripes s) map =? 0); [reflexivity |].
  rewrite Ht, Z.eqb_refl. reflexivity.
Qed.

Lemma enter_terminate_mode_terminating (s : t) :
  nactive_workers s = _terminate -> enter_terminate_mode s = Some (true, s).
Proof.
  intros Ht. rewrite enter_terminate_mode_cases, Ht, Z.eqb_refl.
  reflexivity.
Qed.

Lemma set_active_stripes_nactive (s : t) (m : Z) :
  0 <= m < 2 ^ 32 ->
  nactive_workers (set_active_stripes s m) = nactive_workers s.
Proof.
  intros Hm. unfold set_active_stripes. rewrite atomically_step.
  unfold step_on, set_active_stripes_round.
  destruct (Z.lor (active_stripes s) m =? active_stripes s);
    [reflexivity |].
  apply nactive_workers_make.
  - apply nactive_workers_range.
  - apply lor_range; [apply active_stripes_range | exact Hm].
Qed.

Lemma interfere_terminating (s : t) (i : interference) :
  uint32_interference i ->
  nactive_workers s = _terminate ->
  nactive_workers (interfere s i) = _terminate.
Proof.
  intros Hi Ht. destruct i as [m | | m]; cbn [interfere].
  - rewrite set_active_stripes_nactive by exact Hi. exact Ht.
  - rewrite enter_terminate_mode_terminating by exact Ht. exact Ht.
  - rewrite exit_idle_mode_terminating by exact Ht. exact Ht.
Qed.

Lemma interfere_all_terminating (l : list interference) :
  forall s, Forall uint32_interference l ->
  nactive_workers s = _terminate ->
  nactive_workers (interfere_all s l) = _terminate.
Proof.
  unfold interfere_all.
  induction l as [| i l IH]; intros s Hl Ht; [exact Ht |].
  inversion Hl as [| ? ? Hi Hl']; subst. cbn [fold_left].
  apply IH; [exact Hl' |]. apply interfere_terminating; assumption.
Qed.

(** C6: on a terminating word [exit_idle_mode] answers [false] and
    leaves the word as it is, whatever the stripe map; and whatever the
    other threads then do to the word, a worker in the wait loop of
    [idle] leaves it with [true] at its next poll. *)
Theorem exit_idle_mode_never_leaves_terminate (s : t) (map : Z) :
  nactive_workers s = _terminate ->
  exit_idle_mode s map = Some (false, s) /\
  forall (others : list interference) (naps : list (list interference)),
    Forall uint32_interference others ->
    let s' := interfere_all s others in
    nactive_workers s' = _terminate /\
    exit_idle_mode s' map = Some (false, s') /\
    idle_wait naps s' map = Some (Some true, s').
Proof.
  intros Ht. split; [apply exit_idle_mode_terminating; exact Ht |].
  intros others naps Hothers s'.
  assert (Ht' : nactive_workers s' = _terminate)
    by (apply interfere_all_terminating; assumption).
  split; [exact Ht' |].
  split; [apply exit_idle_mode_terminating; exact Ht' |].
  destruct naps; cbn [idle_wait];
    rewrite (enter_terminate_mode_terminating s' Ht'); reflexivity.
Qed.

Lemma exit_idle_mode_never_leaves_terminate_witness :
  exit_idle_mode (make _terminate 3) 1 = Some (false, make _terminate 3).
Proof.
  exact (proj1 (exit_idle_mode_never_leaves_terminate
                  (make _terminate 3) 1 eq_refl)).
Defined.

End ZMarkTerminateFacts.

(** ** Alignment *)

Module AlignFacts.
Import Machine Align.

Lemma land_not64 (a m : Z) :
  0 <= a < 2 ^ 64 -> Z.land a (not64 m) = Z.ldiff a m.
Proof.
  intros Ha. unfold not64, wrap64.
  rewrite <- Z.land_ones by lia.
  rewrite (Z.land_comm (Z.lnot m)), Z.land_assoc.
  rewrite (Z.land_ones a) by lia.
  rewrite (Z.mod_small a) by exact Ha.
  symmetry. apply Z.ldiff_land.
Qed.

Lemma align_down_pow2 (k x : Z) :
  0 <= k -> 0 <= x < 2 ^ 64 ->
  align_down x (2 ^ k) = 2 ^ k * (x / 2 ^ k).
Proof.
  intros Hk Hx. unfold align_down, alignment_mask.
  rewrite land_not64 by exact Hx.
  replace (2 ^ k - 1) with (Z.ones k) by (rewrite Z.ones_equiv; lia).
  rewrite Z.ldiff_ones_r by exact Hk.
  rewrite Z.shiftl_mul_pow2, Z.shiftr_div_pow2 by exact Hk.
  apply Z.mul_comm.
Qed.

Lemma align_up_pow2 (k x : Z) :
  0 <= k -> 0 <= x -> x + 2 ^ k - 1 < 2 ^ 64 ->
  align_up x (2 ^ k) = 2 ^ k * ((x + 2 ^ k - 1) / 2 ^ k).
Proof.
  intros Hk Hx Hlt. unfold align_up, alignment_mask.
  assert (Hp : 0 < 2 ^ k) by (apply Z.pow_pos_nonneg; lia).
  unfold wrap64. rewrite Z.mod_small by lia.
  rewrite align_down_pow2 by lia.
  do 2 f_equal. lia.
Qed.


Lemma is_aligned_pow2 (k x : Z) :
  0 <= k -> is_aligned x (2 ^ k) = (x mod 2 ^ k =? 0).
Proof.
  intros Hk. unfold is_aligned, alignment_mask.
  replace (2 ^ k - 1) with (Z.ones k) by (rewrite Z.ones_equiv; lia).
  rewrite Z.land_ones by exact Hk. reflexivity.
Qed.

End AlignFacts.

(** ** Entries of the mark stack *)

Module ZMarkStackEntryFacts.
Import ZMarkStackEntryWord.

Lemma bits_above (bits value n : Z) :
  0 <= value < 2 ^ bits -> bits <= n -> Z.testbit value n = false.
Proof.
  intros Hv Hn.
  destruct (Z.lt_ge_cases bits 0) as [Hneg | Hpos].
  - rewrite Z.pow_neg_r in Hv by lia. lia.
  - rewrite <- (Z.mod_small value (2 ^ bits)) by lia.
    apply Z.mod_pow2_bits_high. lia.
Qed.

Lemma b2z_bits (b : bool) (n : Z) : Z.testbit (Z.b2z b) n = b && (n =? 0).
Proof.
  destruct b; cbn [Z.b2z andb].
  - change 1 with (2 ^ 0). destruct (Z.lt_ge_cases n 0).
    + rewrite Z.testbit_neg_r by lia. symmetry. apply Z.eqb_neq. lia.
    + rewrite Z.pow2_bits_eqb by lia. apply Z.eqb_sym.
  - apply Z.bits_0.
Qed.

Section Layout.
Variable l : layout.
Hypothesis length_bits_range : 0 <= partial_array_length_bits l.
Hypothesis offset_bits_range : 0 <= partial_array_offset_bits l.

Let lb := partial_array_length_bits l.
Let ob := partial_array_offset_bits l.

Let word (offset length : Z) (fin : bool) : Z :=
  Z.lor (Z.lor (field_encode (field_partial_array_offset_shift l) offset)
               (field_encode field_partial_array_length_shift length))
        (Z.lor (field_encode 1 1) (field_encode 0 (Z.b2z fin))).

Lemma word_bits (offset length : Z) (fin : bool) (n : Z) :
  0 <= n ->
  Z.testbit (word offset length fin) n
  = Z.testbit offset (n - (2 + lb)) || Z.testbit length (n - 2)
    || ((n =? 1) || fin && (n =? 0)).
Proof.
  intros Hn. unfold word, field_encode, field_partial_array_offset_shift,
               field_partial_array_length_shift.
  rewrite !Z.lor_spec, !Z.shiftl_spec by lia. fold lb.
  rewrite b2z_bits, Z.sub_0_r.
  change 1 with (2 ^ 0) at 1.
  destruct (Z.lt_ge_cases (n - 1) 0).
  - rewrite (Z.testbit_neg_r _ (n - 1)) by lia.
    replace (n =? 1) with false by (symmetry; apply Z.eqb_neq; lia).
    reflexivity.
  - rewrite Z.pow2_bits_eqb by lia.
    replace (0 =? n - 1) with (n =? 1); [reflexivity |].
    destruct (Z.eqb_spec n 1); destruct (Z.eqb_spec 0 (n - 1)); lia.
Qed.

Lemma partial_array_entry_fields (offset length : Z) (fin : bool) :
  0 <= offset < 2 ^ ob -> 0 <= length < 2 ^ lb ->
  exists entry,
    partial_array_entry l offset length fin = Some entry /\
    partial_array_offset l entry = offset /\
    partial_array_length l entry = length /\
    finalizable entry = fin /\
    is_partial_array entry = true /\
    0 <= entry < 2 ^ (2 + lb + ob).
Proof.
  intros Ho Hl. exists (word offset length fin).
  split.
  { unfold partial_array_entry, fits. fold ob lb.
    replace (0 <=? offset) with true by (symmetry; apply Z.leb_le; lia).
    replace (offset <? 2 ^ ob) with true by (symmetry; apply Z.ltb_lt; lia).
    replace (0 <=? length) with true by (symmetry; apply Z.leb_le; lia).
    replace (length <? 2 ^ lb) with true by (symmetry; apply Z.ltb_lt; lia).
    reflexivity. }
  split.
  { unfold partial_array_offset, field_decode,
      field_partial_array_offset_shift. fold lb ob.
    apply Z.bits_inj'. intros n Hn.
    rewrite Z.land_spec, Z.shiftr_spec, word_bits, Z.testbit_ones by lia.
    replace (n + (2 + lb) - (2 + lb)) with n by lia.
    rewrite (bits_above lb length (n + (2 + lb) - 2)) by lia.
    replace (n + (2 + lb) =? 1) with false by (symmetry; apply Z.eqb_neq; lia).
    replace (n + (2 + lb) =? 0) with false by (symmetry; apply Z.eqb_neq; lia).
    rewrite andb_false_r, !orb_false_r.
    replace (0 <=? n) with true by (symmetry; apply Z.leb_le; lia).
    cbn [andb]. destruct (Z.ltb_spec n ob); [apply andb_true_r |].
    rewrite andb_false_r. symmetry. apply (bits_above ob); lia. }
  split.
  { unfold partial_array_length, field_decode,
      field_partial_array_length_shift. fold lb.
    apply Z.bits_inj'. intros n Hn.
    rewrite Z.land_spec, Z.shiftr_spec, word_bits, Z.testbit_ones by lia.
    replace (n + 2 - 2) with n by lia.
    replace (n + 2 =? 1) with false by (symmetry; apply Z.eqb_neq; lia).
    replace (n + 2 =? 0) with false by (symmetry; apply Z.eqb_neq; lia).
    rewrite andb_false_r, !orb_false_r.
    replace (0 <=? n) with true by (symmetry; apply Z.leb_le; lia).
    cbn [andb]. destruct (Z.ltb_spec n lb).
    - rewrite (Z.testbit_neg_r offset) by lia. cbn [orb]. apply andb_true_r.
    - rewrite andb_false_r. symmetry. apply (bits_above lb); lia. }
  split.
  { unfold finalizable. rewrite word_bits by lia.
    rewrite !Z.testbit_neg_r by lia. cbn. destruct fin; reflexivity. }
  split.
  { unfold is_partial_array. rewrite word_bits by lia.
    rewrite (Z.testbit_neg_r offset), (Z.testbit_neg_r length) by lia.
    reflexivity. }
  assert (Hnn : 0 <= word offset length fin).
  { unfold word, field_encode.
    apply Z.lor_nonneg. split; apply Z.lor_nonneg; split;
      apply Z.shiftl_nonneg; try lia.
    destruct fin; cbn [Z.b2z]; lia. }
  split; [exact Hnn |].
  assert (Hmod : word offset length fin mod 2 ^ (2 + lb + ob)
                 = word offset length fin).
  { apply Z.bits_inj'. intros n Hn.
    destruct (Z.lt_ge_cases n (2 + lb + ob)).
    - apply Z.mod_pow2_bits_low. lia.
    - rewrite Z.mod_pow2_bits_high by lia. symmetry.
      rewrite word_bits by lia.
      rewrite (bits_above ob offset), (bits_above lb length) by lia.
      replace (n =? 1) with false by (symmetry; apply Z.eqb_neq; lia).
      replace (n =? 0) with false by (symmetry; apply Z.eqb_neq; lia).
      rewrite andb_false_r. reflexivity. }
  rewrite <- Hmod. apply Z.mod_pos_bound. apply Z.pow_pos_nonneg; lia.
Qed.

Lemma partial_array_entry_unfit (offset length : Z) (fin : bool) :
  ~ (0 <= offset < 2 ^ ob /\ 0 <= length < 2 ^ lb) ->
  partial_array_entry l offset length fin = None.
Proof.
  intros H. unfold partial_array_entry, fits. fold ob lb.
  destruct (Z.leb_spec 0 offset); destruct (Z.ltb_spec offset (2 ^ ob));
    destruct (Z.leb_spec 0 length); destruct (Z.ltb_spec length (2 ^ lb));
    cbn [andb]; try reflexivity.
  exfalso. apply H. lia.
Qed.
End Layout.

End ZMarkStackEntryFacts.

(** ** Splitting a large array *)

Module ZMarkArrayFacts.
Import Machine Align AlignFacts ZMarkArray.
Import ZMarkStackEntryWord ZMarkStackEntryFacts.

Section Shift.
Variable k : Z.
Variable L : layout.
Variable max_array_length : Z.
Hypothesis shift_range : 3 <= k < 64.
Hypothesis length_bits_range : 0 <= partial_array_length_bits L.
Hypothesis offset_bits_range : 0 <= partial_array_offset_bits L.
Hypothesis word_range :
  2 + partial_array_length_bits L + partial_array_offset_bits L <= 64.

Let M := 2 ^ k.
Let lb := partial_array_length_bits L.
Let ob := partial_array_offset_bits L.

Lemma min_size_pow2 : ZMarkPartialArrayMinSize k = M.
Proof. unfold ZMarkPartialArrayMinSize. apply Z.shiftl_1_l. Qed.

Lemma min_size_bounds : 8 <= M <= 2 ^ 63.
Proof.
  unfold M. split.
  - change 8 with (2 ^ 3). apply Z.pow_le_mono_r; lia.
  - apply Z.pow_le_mono_r; lia.
Qed.





(** *** What a descending run of entries covers *)





End Shift.


Example follow_large_array_scenario :
  option_map
    (fun r => (map (fun e => (partial_array_addr 12 (Layout 30 32) e,
                              partial_array_size (Layout 30 32) e))
                   (fst r), snd r))
    (follow_large_array 12 (Layout 30 32) 2147483647 30 65552 80000 false)
  = Some ([(143360, 2192); (106496, 36864); (86016, 20480);
           (77824, 8192); (73728, 4096); (69632, 4096)], (65552, 510)).
Proof. vm_compute. reflexivity. Qed.

(** With these parameters an array of [2^31 - 8] references is
    within the longest array, but its first middle part has [2^30]
    references, one too many for a length of 30 bits: the push makes
    no entry. *)
Example follow_large_array_length_overflow :
  follow_large_array 12 (Layout 30 32) 2147483647 64 69624
                     (2147483640 * 8) false
  = None.
Proof. vm_compute. reflexivity. Qed.

End ZMarkArrayFacts.

(** ** Default affinity *)

Module ZMarkAffinityFacts.
Import Machine ZMarkAffinity.

Lemma In_below (n x : Z) : 0 <= x < n -> In x (below n).
Proof.
  intros Hx. unfold below. apply in_map_iff.
  exists (Z.to_nat x). split; [lia |]. apply in_seq. lia.
Qed.

Lemma In_worker_ids (n x : Z) : In x (worker_ids n) <-> 0 <= x < n.
Proof.
  unfold worker_ids. rewrite in_map_iff. split.
  - intros [i [<- Hi]]. apply in_seq in Hi. lia.
  - intros Hx. exists (Z.to_nat x). split; [lia |]. apply in_seq. lia.
Qed.

Lemma stripe_counts_pow2 (k : Z) : 0 <= k <= 5 -> In (2 ^ k) stripe_counts.
Proof.
  intros Hk.
  assert (H : k = 0 \/ k = 1 \/ k = 2 \/ k = 3 \/ k = 4 \/ k = 5) by lia.
  unfold stripe_counts.
  destruct H as [-> | [-> | [-> | [-> | [-> | ->]]]]]; cbn; tauto.
Qed.

(** The binary64 computation of the spillover index gives the exact
    floor, for every case of up to 32 stripes: checked case by case. *)
Lemma spillover_cases : spillover_cases_agree = true.
Proof. vm_compute. reflexivity. Qed.

Lemma spillover_index_floor (nstripes spillover_nworkers id : Z) :
  In nstripes stripe_counts ->
  0 <= spillover_nworkers < nstripes ->
  0 <= id < spillover_nworkers ->
  spillover_index nstripes spillover_nworkers id
  = (id * nstripes) / spillover_nworkers.
Proof.
  intros HN HS Hid. pose proof spillover_cases as H.
  unfold spillover_cases_agree in H.
  rewrite forallb_forall in H. specialize (H _ HN).
  rewrite forallb_forall in H. specialize (H _ (In_below _ _ HS)).
  rewrite forallb_forall in H. specialize (H _ (In_below _ _ Hid)).
  apply Z.eqb_eq. exact H.
Qed.

Lemma steal_from_all_ones (nstripes : Z) :
  In nstripes stripe_counts -> steal_from_all nstripes = Z.ones nstripes.
Proof.
  unfold stripe_counts. cbn [In].
  intros [<- | [<- | [<- | [<- | [<- | [<- | []]]]]]]; reflexivity.
Qed.

Section Stripes.
Variables k W : Z.
Hypothesis stripes_range : 0 <= k <= 5.
Hypothesis workers_range : 1 <= W < 2 ^ 32.

Let N := 2 ^ k.
Let L := (W / N) * N.

Lemma nstripes_bounds : 1 <= N <= 32.
Proof.
  unfold N. split.
  - change 1 with (2 ^ 0). apply Z.pow_le_mono_r; lia.
  - change 32 with (2 ^ 5). apply Z.pow_le_mono_r; lia.
Qed.

Lemma limit_bounds : 0 <= L <= W /\ W - L = W mod N /\ 0 <= W - L < N.
Proof.
  pose proof nstripes_bounds as HN. unfold L.
  pose proof (Z.div_mod W N ltac:(lia)).
  pose proof (Z.mod_pos_bound W N ltac:(lia)).
  assert (0 <= W / N) by (apply Z.div_pos; lia). nia.
Qed.

Lemma spillover_limit_value : spillover_limit N W = L.
Proof.
  pose proof limit_bounds as HL. unfold spillover_limit, wrap64.
  fold L. apply Z.mod_small. lia.
Qed.

Lemma select_stripe_natural (id : Z) :
  0 <= id < L -> select_stripe N W id = id mod N.
Proof.
  intros Hid. pose proof nstripes_bounds as HN.
  unfold select_stripe. rewrite spillover_limit_value.
  replace (id <? L) with true by (symmetry; apply Z.ltb_lt; lia).
  unfold wrap64. rewrite (Z.mod_small (N - 1)) by lia.
  replace (N - 1) with (Z.ones k)
    by (rewrite Z.ones_equiv; unfold N; lia).
  apply Z.land_ones. lia.
Qed.

Lemma select_stripe_spillover (id : Z) :
  L <= id < W -> select_stripe N W id = ((id - L) * N) / (W - L).
Proof.
  intros Hid. pose proof nstripes_bounds as HN.
  pose proof limit_bounds as HL.
  unfold select_stripe. rewrite spillover_limit_value.
  replace (id <? L) with false by (symmetry; apply Z.ltb_ge; lia).
  unfold wrap64. rewrite !Z.mod_small by lia.
  apply spillover_index_floor; [apply stripe_counts_pow2 | |]; lia.
Qed.

Lemma select_stripe_bounds (id : Z) :
  0 <= id < W -> 0 <= select_stripe N W id < N.
Proof.
  intros Hid. pose proof nstripes_bounds as HN.
  pose proof limit_bounds as HL.
  destruct (Z.lt_ge_cases id L) as [Hlt | Hge].
  - rewrite select_stripe_natural by lia. apply Z.mod_pos_bound. lia.
  - rewrite select_stripe_spillover by lia. split.
    + apply Z.div_pos; nia.
    + apply Z.div_lt_upper_bound; nia.
Qed.

Lemma set_default_affinity_value (id : Z) :
  0 <= id < W ->
  set_default_affinity N W id = Some (select_stripe N W id, Z.ones N).
Proof.
  intros Hid. unfold set_default_affinity.
  pose proof (select_stripe_bounds id Hid) as Hb.
  replace (select_stripe N W id <? N) with true
    by (symmetry; apply Z.ltb_lt; lia).
  rewrite steal_from_all_ones by (apply stripe_counts_pow2; lia).
  reflexivity.
Qed.

(** The workers [stripe], [stripe + N], ... below the limit. *)
Lemma natural_workers_count (stripe : Z) :
  0 <= stripe < N ->
  (Z.to_nat (W / N) <= length (natural_workers N W stripe))%nat.
Proof.
  intros Hs. pose proof nstripes_bounds as HN.
  pose proof limit_bounds as HL.
  set (f := fun i : nat => stripe + Z.of_nat i * N).
  set (l := map f (seq 0 (Z.to_nat (W / N)))).
  assert (Hlen : length l = Z.to_nat (W / N))
    by (unfold l; rewrite length_map, length_seq; reflexivity).
  rewrite <- Hlen. apply NoDup_incl_length.
  - unfold l. apply Injective_map_NoDup; [| apply seq_NoDup].
    intros a b Hab. unfold f in Hab. nia.
  - intros x Hx. unfold l in Hx. apply in_map_iff in Hx.
    destruct Hx as [i [<- Hi]]. apply in_seq in Hi.
    assert (Hq : 0 <= W / N) by (apply Z.div_pos; lia).
    assert (Hi' : Z.of_nat i + 1 <= W / N) by lia.
    assert (Hx : 0 <= f i < L) by (unfold f, L; nia).
    unfold natural_workers. apply filter_In. split.
    + apply In_worker_ids. lia.
    + rewrite spillover_limit_value.
      rewrite set_default_affinity_value by lia.
      rewrite select_stripe_natural by lia.
      apply andb_true_iff. split; [apply Z.ltb_lt; lia |].
      apply Z.eqb_eq. unfold f.
      rewrite Z.mod_add by lia. apply Z.mod_small. lia.
Qed.

(** C8: with up to 32 stripes, a power of two, and [W >= 1] workers,
    [set_default_affinity] gives every worker a stripe index below
    [N]: the worker's id modulo [N] below the spillover limit, and
    [floor(spillover_worker_id * N / spillover_nworkers)] from the
    limit on; every stripe is the home of at least [floor(W / N)]
    workers below the limit; and the stripe map has the [N] stripes
    set. *)
Theorem set_default_affinity_total :
  N <= W ->
  (forall worker_id,
      0 <= worker_id < W ->
      exists index map,
        set_default_affinity N W worker_id = Some (index, map) /\
        0 <= index < N /\
        (worker_id < L -> index = worker_id mod N) /\
        (L <= worker_id -> index = ((worker_id - L) * N) / (W - L)) /\
        forall stripe,
          0 <= stripe < N -> ZMarkStripeMap.get map stripe = true) /\
  (forall stripe,
      0 <= stripe < N ->
      (Z.to_nat (W / N) <= length (natural_workers N W stripe))%nat).
Proof.
  intros _. split; [| exact natural_workers_count].
  intros id Hid. exists (select_stripe N W id), (Z.ones N).
  split; [apply set_default_affinity_value; exact Hid |].
  split; [apply select_stripe_bounds; exact Hid |].
  split; [intros Hlt; apply select_stripe_natural; lia |].
  split; [intros Hge; apply select_stripe_spillover; lia |].
  intros stripe Hs. unfold ZMarkStripeMap.get.
  apply Z.ones_spec_low. lia.
Qed.

End Stripes.

Lemma set_default_affinity_total_witness :
  exists index map,
    set_default_affinity 4 7 5 = Some (index, map) /\
    0 <= index < 4 /\
    index = ((5 - 4) * 4) / (7 - 4).
Proof.
  destruct (proj1 (set_default_affinity_total 2 7 ltac:(lia) ltac:(lia)
                     ltac:(cbn; lia)) 5 ltac:(lia))
    as [index [map [Hrun [Hrange [_ [Hspill _]]]]]].
  exists index, map.
  split; [exact Hrun | split; [exact Hrange | apply Hspill; cbn; lia]].
Defined.

Example set_default_affinity_seven_workers :
  map (set_default_affinity 4 7) (worker_ids 7)
  = [Some (0, 15); Some (1, 15); Some (2, 15); Some (3, 15);
     Some (0, 15); Some (1, 15); Some (2, 15)].
Proof. vm_compute. reflexivity. Qed.

End ZMarkAffinityFacts.

(** ** The restart loop *)

Module ZMarkFacts.
Import Machine ZMark.

Section RestartMax.
Variable ZMarkRestartMax : Z.

#[local] Abbreviation max_restarts := (max_restarts ZMarkRestartMax).
#[local] Abbreviation restart := (restart ZMarkRestartMax).
#[local] Abbreviation mark_loop := (mark_loop ZMarkRestartMax).
#[local] Abbreviation within_limit := (within_limit ZMarkRestartMax).

Lemma max_restarts_exact (m : t) :
  within_limit m ->
  max_restarts m = ZMarkRestartMax * (_ncontinue m + 1).
Proof.
  intros [Hc [Hr [Hlt Hn]]]. unfold ZMark.max_restarts, wrap32.
  rewrite (Z.mod_small (_ncontinue m + 1)) by lia.
  apply Z.mod_small. nia.
Qed.

Lemma restart_at_limit (m : t) (published : list Z) :
  _nrestart m = max_restarts m -> restart m published = (false, m, []).
Proof.
  intros H. unfold ZMark.restart. rewrite H, Z.eqb_refl. reflexivity.
Qed.

Lemma restart_below_limit (m : t) (published : list Z) :
  within_limit m ->
  _nrestart m <> max_restarts m ->
  let word := flush_threads (_terminate m) published in
  let active := ZMarkTerminate.has_active_stripes word in
  restart m published
  = (active,
     Build word (if active then _nrestart m + 1 else _nrestart m)
           (_ncomplete m) (_ncontinue m),
     [FlushVMAndJavaThreads]).
Proof.
  intros Hlim Hne word active.
  pose proof (max_restarts_exact m Hlim) as Hmax.
  destruct Hlim as [Hc [Hr [Hlt Hn]]].
  unfold ZMark.restart. fold (max_restarts m).
  destruct (Z.eqb_spec (_nrestart m) (max_restarts m)) as [He | _];
    [contradiction |].
  fold word. fold active. destruct active; [| reflexivity].
  unfold wrap32. rewrite Z.mod_small by lia. reflexivity.
Qed.

Lemma restart_keeps_limit (m : t) (published : list Z) :
  within_limit m -> within_limit (snd (fst (restart m published))).
Proof.
  intros Hlim.
  destruct (Z.eq_dec (_nrestart m) (max_restarts m)) as [He | Hne].
  - rewrite restart_at_limit by exact He. exact Hlim.
  - rewrite restart_below_limit by assumption. cbn [fst snd].
    pose proof (max_restarts_exact m Hlim) as Hmax.
    destruct Hlim as [Hc [Hr [Hlt Hn]]].
    unfold ZMark.within_limit.
    destruct (ZMarkTerminate.has_active_stripes _);
      cbn [_ncontinue _nrestart]; lia.
Qed.

Lemma prepare_mark_within_limit (m : t) :
  0 <= ZMarkRestartMax < 2 ^ 32 -> within_limit (prepare_mark m).
Proof.
  intros H. unfold ZMark.within_limit, prepare_mark.
  cbn [_ncontinue _nrestart]. lia.
Qed.

Lemma continue_mark_within_limit (m : t) :
  within_limit m ->
  _ncontinue m + 1 < 2 ^ 32 - 1 ->
  ZMarkRestartMax * (_ncontinue m + 2) < 2 ^ 32 ->
  within_limit (continue_mark m).
Proof.
  intros [Hc [Hr [Hlt Hn]]] Hc' Hlt'. unfold ZMark.within_limit, continue_mark.
  cbn [_ncontinue _nrestart]. unfold wrap32.
  rewrite Z.mod_small by lia.
  replace (_ncontinue m + 1 + 1) with (_ncontinue m + 2) by lia. nia.
Qed.

Lemma mark_task_runs_cons (e : event) (events : list event) :
  mark_task_runs (e :: events)
  = (if is_mark_task e then 1 else 0) + mark_task_runs events.
Proof.
  unfold mark_task_runs. cbn [filter].
  destruct (is_mark_task e); cbn [length]; lia.
Qed.

Lemma mark_loop_terminates (env : nat -> round) (n : nat) :
  forall (i : nat) (m : t),
    within_limit m ->
    Z.to_nat (max_restarts m - _nrestart m) = n ->
    exists m' events,
      (forall fuel, (n < fuel)%nat ->
                    mark_loop fuel env i m = Some (m', events)) /\
      within_limit m' /\
      1 <= mark_task_runs events <= Z.of_nat n + 1.
Proof.
  induction n as [| n IH]; intros i m Hlim Hn;
    pose proof (max_restarts_exact m Hlim) as Hmax;
    set (ran := Build (left_by_mark_task (env i)) (_nrestart m)
                      (_ncomplete m) (_ncontinue m));
    assert (Hran : within_limit ran) by exact Hlim;
    assert (Hmaxran : max_restarts ran = max_restarts m) by reflexivity.
  - assert (He : _nrestart ran = max_restarts ran).
    { destruct Hlim as [Hc [Hr [Hlt Hb]]]. cbn [_nrestart ran].
      rewrite Hmaxran. lia. }
    exists ran, [RunMarkTask]. split; [| split; [exact Hran | cbn; lia]].
    intros [| fuel] Hfuel; [lia |]. cbn [ZMark.mark_loop].
    fold ran. rewrite restart_at_limit by exact He. reflexivity.
  - assert (Hne : _nrestart ran <> max_restarts ran).
    { cbn [_nrestart ran]. rewrite Hmaxran. lia. }
    pose proof (restart_below_limit ran (published_by_flush (env i))
                  Hran Hne) as Hstep.
    cbv zeta in Hstep.
    pose proof (restart_keeps_limit ran (published_by_flush (env i)) Hran)
      as Hkeep.
    rewrite Hstep in Hkeep. cbn [fst snd] in Hkeep.
    destruct (ZMarkTerminate.has_active_stripes
                (flush_threads (_terminate ran)
                               (published_by_flush (env i)))) eqn:Hactive.
    + destruct (IH (S i) _ Hkeep) as [m' [events [Hrun [Hlim' Hcount]]]].
      { clear - Hn. subst ran. unfold ZMark.max_restarts in *.
        cbn [_ncontinue _nrestart] in *. lia. }
      exists m', (RunMarkTask :: [FlushVMAndJavaThreads] ++ events).
      split; [| split; [exact Hlim' |]].
      * intros [| fuel] Hfuel; [lia |]. cbn [ZMark.mark_loop].
        fold ran. rewrite Hstep. rewrite Hrun by lia. reflexivity.
      * cbn [app]. rewrite !mark_task_runs_cons. cbn [is_mark_task]. lia.
    + exists (Build (flush_threads (_terminate ran)
                                   (published_by_flush (env i)))
                    (_nrestart ran) (_ncomplete ran) (_ncontinue ran)),
             (RunMarkTask :: [FlushVMAndJavaThreads]).
      split; [| split; [exact Hkeep | cbn; lia]].
      intros [| fuel] Hfuel; [lia |]. cbn [ZMark.mark_loop].
      fold ran. rewrite Hstep. reflexivity.
Qed.

(** C9: [restart] answers [false] without flushing when the restart
    counter has reached [ZMarkRestartMax * (ncontinue + 1)];
    otherwise it flushes, and answers [true] and counts one more
    restart exactly when stripes are still active; so the loop of
    [mark] ends, after at most [ZMarkRestartMax * (ncontinue + 1) + 1]
    runs of the mark task, whatever the workers and threads do. *)
Theorem restart_bounds_mark (m : t) :
  within_limit m ->
  (forall published,
      _nrestart m = ZMarkRestartMax * (_ncontinue m + 1) ->
      restart m published = (false, m, [])) /\
  (forall published,
      _nrestart m <> ZMarkRestartMax * (_ncontinue m + 1) ->
      let word := flush_threads (_terminate m) published in
      let active := ZMarkTerminate.has_active_stripes word in
      restart m published
      = (active,
         Build word (if active then _nrestart m + 1 else _nrestart m)
               (_ncomplete m) (_ncontinue m),
         [FlushVMAndJavaThreads])) /\
  (forall (env : nat -> round) (initial : bool),
      exists m' events,
        (forall fuel,
            (Z.to_nat (ZMarkRestartMax * (_ncontinue m + 1)) < fuel)%nat ->
            mark ZMarkRestartMax fuel env initial m = Some (m', events)) /\
        1 <= mark_task_runs events
        <= ZMarkRestartMax * (_ncontinue m + 1) + 1).
Proof.
  intros Hlim. pose proof (max_restarts_exact m Hlim) as Hmax.
  split; [| split].
  - intros published He. apply restart_at_limit. lia.
  - intros published Hne. apply restart_below_limit; [exact Hlim | lia].
  - intros env initial.
    destruct (mark_loop_terminates env _ 0%nat m Hlim eq_refl)
      as [m' [events [Hrun [_ Hcount]]]].
    destruct Hlim as [Hc [Hr [Hlt Hn]]].
    exists m', (if initial then RunConcurrentRoots :: events else events).
    split.
    + intros fuel Hfuel. unfold mark. rewrite Hrun; [reflexivity |].
      rewrite Hmax. lia.
    + assert (Hsame :
                mark_task_runs
                  (if initial then RunConcurrentRoots :: events else events)
                = mark_task_runs events)
        by (destruct initial; [rewrite mark_task_runs_cons |]; reflexivity).
      rewrite Hsame. rewrite Hmax in Hcount. lia.
Qed.

End RestartMax.

(** One restart allowed, none used, no continuation yet; the workers
    leave work behind in every round. *)
Lemma restart_bounds_mark_witness :
  exists m' events,
    mark 1 3 (fun _ => Round (ZMarkTerminateState.make 0 1) []) true
         (Build (ZMarkTerminateState.make 0 0) 0 0 0)
    = Some (m', events) /\
    mark_task_runs events <= 1 * (0 + 1) + 1.
Proof.
  assert (Hlim : within_limit 1 (Build (ZMarkTerminateState.make 0 0) 0 0 0))
    by (unfold within_limit; cbn; lia).
  destruct (proj2 (proj2 (restart_bounds_mark 1 _ Hlim))
                  (fun _ => Round (ZMarkTerminateState.make 0 1) []) true)
    as [m' [events [Hrun Hcount]]].
  exists m', events. split; [apply Hrun; cbn; lia | apply Hcount].
Defined.

Example mark_restarts_once :
  option_map snd
    (mark 1 3 (fun _ => Round (ZMarkTerminateState.make 0 1) []) true
          (Build (ZMarkTerminateState.make 0 0) 0 0 0))
  = Some [RunConcurrentRoots; RunMarkTask; FlushVMAndJavaThreads;
          RunMarkTask].
Proof. reflexivity. Qed.

End ZMarkFacts.

(** ** Objects on allocating pages *)

Module ZMarkObjectFacts.
Import ZMarkObject.

(** C10: when the page of [addr] is allocating, [try_mark_object]
    answers [false], with the mark bits and the cache of live bytes as
    they were, and [mark_and_follow] drops the object entry without
    following anything. *)
Theorem try_mark_object_allocating
        {heap : Heap} (marks : marking) (cache : ZMarkCache)
        (addr : Z) (follow finalizable : bool) :
  is_allocating (page_table_get addr) = true ->
  try_mark_object marks cache addr finalizable = (false, marks, cache) /\
  mark_and_follow marks cache (Object addr follow finalizable)
  = (marks, cache, []).
Proof.
  intros Halloc.
  assert (Htry : try_mark_object marks cache addr finalizable
                 = (false, marks, cache))
    by (unfold try_mark_object; rewrite Halloc; reflexivity).
  split; [exact Htry |].
  unfold mark_and_follow. rewrite Htry. reflexivity.
Qed.

Lemma try_mark_object_allocating_witness :
  @try_mark_object two_pages [] [] 2097168 false = (false, [], []) /\
  @mark_and_follow two_pages [] [] (Object 2097168 true false)
  = ([], [], []).
Proof.
  exact (@try_mark_object_allocating two_pages [] [] 2097168 true false
                                     eq_refl).
Defined.

Example mark_and_follow_on_a_relocatable_page :
  @mark_and_follow two_pages [] [] (Object 16 true false)
  = ([16], [(0, 24)], [FollowObject 16 false]).
Proof. reflexivity. Qed.

End ZMarkObjectFacts.

(** ** The director *)

Module ZDirectorFacts.
Import Machine ZDirector.

(** What [clamp] leaves below its upper bound, for a [uint] bound. *)
Lemma clamp_slack (value hi : Z) :
  0 <= hi < 2 ^ 32 -> 0 <= hi - clamp value 1 hi < 2 ^ 32.
Proof.
  intros H. unfold clamp, MIN2, MAX2.
  repeat match goal with
         | |- context [?a <? ?b] => destruct (Z.ltb_spec a b)
         end; lia.
Qed.

(** Exact arithmetic has no NaN. *)
Lemma exact_comparable (x y : Q) : @comparable Q exact x y.
Proof.
  unfold comparable. cbn [leb ltb exact].
  symmetry. apply negb_involutive.
Qed.

(** Binary64 comparisons decide unless an operand is a NaN. *)
Lemma SFcompare_antisym (a b : SpecFloat.spec_float) :
  a <> SpecFloat.S754_nan -> b <> SpecFloat.S754_nan ->
  SpecFloat.SFcompare b a = option_map CompOpp (SpecFloat.SFcompare a b).
Proof.
  intros Ha Hb.
  destruct a as [sa | sa | | sa ma ea]; destruct b as [sb | sb | | sb mb eb];
    try congruence; cbn [SpecFloat.SFcompare option_map];
    try (destruct sa; reflexivity); try (destruct sb; reflexivity);
    try (destruct sa; destruct sb; reflexivity).
  f_equal. rewrite (Z.compare_antisym ea eb).
  destruct sa; destruct sb; try reflexivity;
    destruct (ea ?= eb)%Z; cbn [CompOpp]; try reflexivity;
    rewrite (Pos.compare_cont_antisym ma mb Eq); reflexivity.
Qed.

Lemma binary64_comparable (x y : PrimFloat.float) :
  FloatOps.Prim2SF x <> SpecFloat.S754_nan ->
  FloatOps.Prim2SF y <> SpecFloat.S754_nan ->
  @comparable PrimFloat.float binary64 x y.
Proof.
  intros Hx Hy. unfold comparable. cbn [leb ltb binary64].
  rewrite FloatAxioms.leb_spec, FloatAxioms.ltb_spec.
  unfold SpecFloat.SFleb, SpecFloat.SFltb.
  rewrite (SFcompare_antisym _ _ Hx Hy).
  destruct (SpecFloat.SFcompare (FloatOps.Prim2SF x) (FloatOps.Prim2SF y))
    as [[| |] |] eqn:Hc; try reflexivity.
  destruct (FloatOps.Prim2SF x), (FloatOps.Prim2SF y);
    cbn in Hc; congruence.
Qed.

Section Rules.
Context {D : Type} {ops : DoubleOps D}.
Variable s : State D.


(** The rule, once the cycle times can be trusted, in the words of
    the spec. *)
Lemma rule_allocation_rate_dynamic_decides :
  is_time_trustable s = true ->
  0 <= ConcGCThreads s < 2 ^ 32 ->
  comparable (spec_sd_percent s) (decimal 15 100) ->
  rule_allocation_rate_dynamic s
  = if (spec_actual s <=? last_active_workers s)
       && ltb zero (spec_time_until_gc s)
    then Request _no_gc (spec_actual s)
    else Request _z_allocation_rate (spec_actual s).
Proof.
  intros Htrust HC Hsteady.
  assert (Hnot : negb (ltb (spec_sd_percent s) (decimal 15 100))
                 = spec_not_steady s)
    by (unfold spec_not_steady; rewrite Hsteady; reflexivity).
  assert (Hwrap : wrap32 (ConcGCThreads s - spec_actual s)
                  = ConcGCThreads s - spec_actual s).
  { unfold wrap32. apply Z.mod_small. apply clamp_slack. exact HC. }
  unfold rule_allocation_rate_dynamic.
  rewrite Htrust. cbn [negb].
  fold (spec_sd_percent s). rewrite Hnot.
  fold (spec_time_until_oom s). fold (spec_n s).
  unfold discrete_gc_workers. fold (spec_actual s).
  rewrite Hwrap. fold (spec_time_until_gc s). reflexivity.
Qed.


(** C2, amended: with [UseDynamicNumberOfGCThreads],
    [rule_allocation_rate] returns the request of
    [rule_allocation_rate_dynamic] when [UseNewCode] is set, and the
    request of [rule_allocation_rate_dynamic_orig] when it is not. *)
Theorem rule_allocation_rate_selects :
  UseDynamicNumberOfGCThreads s = true ->
  (UseNewCode s = true ->
   rule_allocation_rate s = rule_allocation_rate_dynamic s) /\
  (UseNewCode s = false ->
   rule_allocation_rate s = rule_allocation_rate_dynamic_orig s).
Proof.
  intros Hdyn. unfold rule_allocation_rate. rewrite Hdyn.
  split; intros ->; reflexivity.
Qed.

(** *** One tick *)

Lemma of_cause_no_gc_does_not_fire :
  Cause_eqb (cause (of_cause s _no_gc)) _no_gc = true.
Proof. reflexivity. Qed.

Lemma execute_rules_first (l : list ZDirectorRule) :
  snd (execute_rules s l) = map Execute (up_to_first s l) /\
  fst (execute_rules s l)
  = match find (fires s) l with
    | Some rule => call s rule
    | None => of_cause s _no_gc
    end.
Proof.
  induction l as [| rule l [IHex IHreq]]; [split; reflexivity |].
  cbn [execute_rules up_to_first find]. fold (fires s rule).
  destruct (fires s rule); [split; reflexivity |].
  destruct (execute_rules s l) as [decision executed].
  cbn [fst snd] in *. rewrite IHex, IHreq. split; reflexivity.
Qed.

Lemma up_to_first_prefix (l : list ZDirectorRule) :
  exists rest, l = up_to_first s l ++ rest.
Proof.
  induction l as [| rule l [rest IH]]; [exists []; reflexivity |].
  cbn [up_to_first]. destruct (fires s rule).
  - exists l. reflexivity.
  - exists rest. cbn [app]. rewrite <- IH. reflexivity.
Qed.

Lemma find_fires (l : list ZDirectorRule) (rule : ZDirectorRule) :
  find (fires s) l = Some rule ->
  cause (call s rule) <> _no_gc.
Proof.
  intros H. apply find_some in H. destruct H as [_ H].
  unfold fires in H. intros Hc. rewrite Hc in H. discriminate H.
Qed.

Lemma collected_executed (l : list ZDirectorRule) :
  collected (map Execute l) = [].
Proof. induction l as [| r l IH]; [reflexivity | exact IH]. Qed.

Lemma samples_executed (l : list ZDirectorRule) :
  samples (map Execute l) = [].
Proof. induction l as [| r l IH]; [reflexivity | exact IH]. Qed.

Lemma executed_rules (l : list ZDirectorRule) :
  executed (map Execute l) = l.
Proof.
  induction l as [| r l IH]; [reflexivity |].
  cbn [map executed flat_map app] in *. f_equal. exact IH.
Qed.

Lemma through_first_calls (l : list ZDirectorRule) :
  map (call s) (up_to_first s l) = through_first (map (call s) l) /\
  option_map (call s) (find (fires s) l)
  = find is_request (map (call s) l).
Proof.
  induction l as [| rule l [IH1 IH2]]; [split; reflexivity |].
  cbn [up_to_first map through_first find].
  change (is_request (call s rule)) with (fires s rule).
  destruct (fires s rule); [split; reflexivity |].
  cbn [map]. rewrite IH1. split; [reflexivity | exact IH2].
Qed.

(** C3: a tick samples the allocation rate once, first; when the
    driver is busy it does nothing else; otherwise it computes the
    requests of [rule_allocation_stall], [rule_warmup], [rule_timer],
    [rule_allocation_rate], [rule_high_usage] and [rule_proactive], in
    this order, up to the first whose cause is not [_no_gc], and
    forwards exactly that request: at most one request a tick, never
    with cause [_no_gc]; so an allocation stall is forwarded whatever
    the other rules would answer. *)
Theorem tick_forwards_first (is_busy : bool) :
  let actions := tick s is_busy in
  let requests :=
    [rule_allocation_stall s; rule_warmup s; rule_timer s;
     rule_allocation_rate s; rule_high_usage s; rule_proactive s] in
  (exists rest,
      actions = SampleAllocationRate :: rest /\ samples rest = []) /\
  (is_busy = true -> actions = [SampleAllocationRate]) /\
  (is_busy = false ->
     map (call s) (executed actions) = through_first requests /\
     collected actions
     = match find is_request requests with
       | Some request => [request]
       | None => []
       end /\
     exists rules_left,
       actions
       = SampleAllocationRate ::
         map Execute (executed actions) ++ map Collect (collected actions) /\
       rules = executed actions ++ rules_left) /\
  (length (collected actions) <= 1)%nat /\
  Forall (fun request => cause request <> _no_gc) (collected actions) /\
  (is_busy = false -> has_alloc_stalled s = true ->
   collected actions = [Request _z_allocation_stall (default_nworkers s)]).
Proof.
  intros actions requests.
  destruct (execute_rules_first rules) as [Hex Hreq].
  destruct (through_first_calls rules) as [Hthrough Hfind].
  change (map (call s) rules) with requests in Hthrough, Hfind.
  assert (Hactions :
            actions
            = SampleAllocationRate ::
              (if is_busy then []
               else map Execute (up_to_first s rules) ++
                    match find (fires s) rules with
                    | Some rule => [Collect (call s rule)]
                    | None => []
                    end)).
  { unfold actions, tick, make_gc_decision.
    destruct is_busy; [reflexivity |]. cbn [negb]. f_equal.
    destruct (execute_rules s rules) as [request ran].
    cbn [fst snd] in Hex, Hreq. subst ran request.
    destruct (find (fires s) rules) as [rule |] eqn:Hf.
    - apply find_some in Hf. destruct Hf as [_ Hfires].
      unfold fires in Hfires. rewrite Hfires. reflexivity.
    - rewrite of_cause_no_gc_does_not_fire. cbn [negb].
      symmetry. apply app_nil_r. }
  assert (Hcollect_one :
            forall o : option ZDirectorRule,
              collected (match o with
                         | Some rule => [Collect (call s rule)]
                         | None => []
                         end)
              = match option_map (call s) o with
                | Some request => [request]
                | None => []
                end)
    by (intros [rule |]; reflexivity).
  assert (Hexecute_one :
            forall o : option ZDirectorRule,
              executed (match o with
                        | Some rule => [Collect (call s rule)]
                        | None => []
                        end) = [])
    by (intros [rule |]; reflexivity).
  assert (Hcollected :
            collected actions
            = if is_busy then []
              else match find is_request requests with
                   | Some request => [request]
                   | None => []
                   end).
  { rewrite Hactions. destruct is_busy; [reflexivity |].
    unfold collected. cbn [flat_map app]. rewrite flat_map_app.
    fold (collected (map Execute (up_to_first s rules))).
    rewrite collected_executed. cbn [app].
    fold (collected (match find (fires s) rules with
                     | Some rule => [Collect (call s rule)]
                     | None => []
                     end)).
    rewrite Hcollect_one, Hfind. reflexivity. }
  assert (Hexecuted :
            executed actions = if is_busy then [] else up_to_first s rules).
  { rewrite Hactions. destruct is_busy; [reflexivity |].
    unfold executed. cbn [flat_map app]. rewrite flat_map_app.
    fold (executed (map Execute (up_to_first s rules))).
    fold (executed (match find (fires s) rules with
                    | Some rule => [Collect (call s rule)]
                    | None => []
                    end)).
    rewrite executed_rules, Hexecute_one. apply app_nil_r. }
  split.
  { eexists. split; [exact Hactions |].
    destruct is_busy; [reflexivity |].
    unfold samples. rewrite filter_app.
    fold (samples (map Execute (up_to_first s rules))).
    rewrite samples_executed.
    destruct (find (fires s) rules); reflexivity. }
  split; [intros ->; exact Hactions |].
  split.
  { intros Hidle. rewrite Hexecuted, Hcollected, Hidle.
    split; [exact Hthrough |]. split; [reflexivity |].
    destruct (up_to_first_prefix rules) as [rules_left Hleft].
    exists rules_left. split; [| exact Hleft].
    rewrite Hactions, Hidle. do 2 f_equal.
    rewrite <- Hfind. destruct (find (fires s) rules); reflexivity. }
  assert (Hsome : forall request,
             find is_request requests = Some request ->
             cause request <> _no_gc).
  { intros request Hf. apply find_some in Hf. destruct Hf as [_ Hr].
    unfold is_request in Hr. intros Hc. rewrite Hc in Hr. discriminate. }
  split; [| split].
  - rewrite Hcollected. destruct is_busy; [cbn; lia |].
    destruct (find is_request requests); cbn; lia.
  - rewrite Hcollected. destruct is_busy; [constructor |].
    destruct (find is_request requests) as [request |] eqn:Hf;
      [| constructor].
    constructor; [exact (Hsome request eq_refl) | constructor].
  - intros Hidle Hstall. rewrite Hcollected, Hidle.
    unfold requests. cbn [find].
    unfold rule_allocation_stall at 1 2. rewrite Hstall. reflexivity.
Qed.

End Rules.

(** In exact arithmetic the rule decides as the spec says on every
    state: no comparison is left undecided. *)
Lemma rule_allocation_rate_dynamic_exact (s : State Q) :
  is_time_trustable s = true ->
  0 <= ConcGCThreads s < 2 ^ 32 ->
  rule_allocation_rate_dynamic s
  = Request (if (last_active_workers s <? spec_actual s)
                || Qle_bool (spec_time_until_gc s) 0
             then _z_allocation_rate else _no_gc)
            (spec_actual s).
Proof.
  intros Htrust HC.
  rewrite (rule_allocation_rate_dynamic_decides s Htrust HC
             (exact_comparable _ _)).
  pose proof (exact_comparable zero (spec_time_until_gc s)) as Hgc.
  unfold comparable in Hgc. cbn [leb exact] in Hgc.
  change (Qle_bool (spec_time_until_gc s) 0)
    with (Qle_bool (spec_time_until_gc s) zero).
  rewrite Hgc, Z.leb_antisym.
  destruct (last_active_workers s <? spec_actual s);
    destruct (ltb zero (spec_time_until_gc s)); reflexivity.
Qed.

(** [run_service] is one [tick] after the other. *)
Lemma run_service_ticks {D : Type} {ops : DoubleOps D}
      (ticks : list (State D * bool)) :
  Forall2 (fun found actions => actions = tick (fst found) (snd found))
          ticks (run_service ticks).
Proof.
  induction ticks as [| found ticks IH]; constructor;
    [reflexivity | exact IH].
Qed.


(** C2, as stated, fails: with [UseNewCode] off the older variant
    answers, and on long cycles its floor [min_n] gives two workers
    where the newer variant asks for four. *)
Lemma rule_allocation_rate_differs :
  UseDynamicNumberOfGCThreads long_cycles = true /\
  rule_allocation_rate long_cycles = Request _z_allocation_rate 2 /\
  rule_allocation_rate_dynamic long_cycles = Request _z_allocation_rate 4 /\
  rule_allocation_rate long_cycles
  <> rule_allocation_rate_dynamic long_cycles.
Proof.
  assert (Ha : rule_allocation_rate long_cycles
               = Request _z_allocation_rate 2) by (vm_compute; reflexivity).
  assert (Hb : rule_allocation_rate_dynamic long_cycles
               = Request _z_allocation_rate 4) by (vm_compute; reflexivity).
  repeat split; try assumption.
  rewrite Ha, Hb. discriminate.
Qed.

Lemma rule_allocation_rate_selects_witness :
  rule_allocation_rate long_cycles
  = rule_allocation_rate_dynamic_orig long_cycles.
Proof.
  exact (proj2 (rule_allocation_rate_selects long_cycles eq_refl) eq_refl).
Defined.

Example tick_on_long_cycles :
  tick long_cycles false
  = [SampleAllocationRate; Execute allocation_stall; Execute warmup;
     Execute timer; Execute allocation_rate;
     Collect (Request _z_allocation_rate 2)].
Proof. vm_compute. reflexivity. Qed.

End ZDirectorFacts.

(** ** More on the termination word and its protocol *)

Module ZMarkTerminateLaws.
Import Machine ZMarkTerminateState ZMarkTerminate ZMarkTerminateFacts ZMarkIdle.

Lemma state_eq (a b : t) : _state a = _state b -> a = b.
Proof. destruct a, b. cbn. intros ->. reflexivity. Qed.

Lemma make_fields (w : t) :
  0 <= _state w < 2 ^ 64 -> make (nactive_workers w) (active_stripes w) = w.
Proof.
  intros Hw. apply state_eq.
  rewrite make_state by apply active_stripes_range.
  unfold nactive_workers, active_stripes, field_decode.
  rewrite Z.shiftr_0_r, !Z.land_ones, Z.shiftr_div_pow2 by lia.
  rewrite (Z.mod_small (_state w / 2 ^ 32)).
  - pose proof (Z.div_mod (_state w) (2 ^ 32) ltac:(lia)). lia.
  - split; [apply Z.div_pos; lia |].
    apply Z.div_lt_upper_bound; lia.
Qed.

Lemma make_range (n s : Z) :
  0 <= n < 2 ^ 32 -> 0 <= s < 2 ^ 32 -> 0 <= _state (make n s) < 2 ^ 64.
Proof. intros Hn Hs. rewrite make_state by exact Hs. lia. Qed.

(** X1: the termination word and its two fields determine each other:
    decoding [make n s] gives back [n] and [s], encoding the fields of a
    64-bit word gives back the word, and a word is cleared exactly when
    both fields are zero. *)
Theorem fields_round_trip (n s : Z) (w : t) :
  0 <= n < 2 ^ 32 -> 0 <= s < 2 ^ 32 -> 0 <= _state w < 2 ^ 64 ->
  nactive_workers (make n s) = n /\
  active_stripes (make n s) = s /\
  make (nactive_workers w) (active_stripes w) = w /\
  (is_cleared w = true <-> nactive_workers w = 0 /\ active_stripes w = 0).
Proof.
  intros Hn Hs Hw.
  split; [apply nactive_workers_make; assumption |].
  split; [apply active_stripes_make; assumption |].
  split; [apply make_fields; exact Hw |].
  split; [apply is_cleared_fields |].
  intros [H1 H2]. rewrite <- (make_fields w Hw), H1, H2. reflexivity.
Qed.

Lemma fields_round_trip_witness :
  nactive_workers (make 4 5) = 4 /\ active_stripes (make 4 5) = 5.
Proof.
  destruct (fields_round_trip 4 5 (make 4 5) ltac:(lia) ltac:(lia)
              ltac:(cbn; lia)) as [H1 [H2 _]].
  split; assumption.
Defined.

(** *** The operations as equations *)

Lemma set_active_stripes_cases (w : t) (m : Z) :
  set_active_stripes w m
  = if Z.lor (active_stripes w) m =? active_stripes w then w
    else make (nactive_workers w) (Z.lor (active_stripes w) m).
Proof.
  unfold set_active_stripes. rewrite atomically_step.
  unfold step_on, set_active_stripes_round.
  destruct (Z.lor (active_stripes w) m =? active_stripes w); reflexivity.
Qed.

Lemma set_active_stripes_fields (w : t) (m : Z) :
  0 <= m < 2 ^ 32 ->
  nactive_workers (set_active_stripes w m) = nactive_workers w /\
  active_stripes (set_active_stripes w m) = Z.lor (active_stripes w) m.
Proof.
  intros Hm. rewrite set_active_stripes_cases.
  pose proof (active_stripes_range w) as Ha.
  pose proof (nactive_workers_range w) as Hn.
  pose proof (lor_range _ _ Ha Hm) as Hl.
  destruct (Z.eqb_spec (Z.lor (active_stripes w) m) (active_stripes w))
    as [He | He].
  - split; [reflexivity | symmetry; exact He].
  - split; [apply nactive_workers_make | apply active_stripes_make];
      assumption.
Qed.

Lemma enter_idle_mode_cases (w : t) (m : Z) :
  is_cleared w = false ->
  enter_idle_mode w m
  = Some (let new_stripes := Z.land (active_stripes w) (not32 m) in
          let should_idle := new_stripes =? active_stripes w in
          (should_idle,
           make (if should_idle then wrap32 (nactive_workers w - 1)
                 else nactive_workers w)
                new_stripes)).
Proof.
  intros Hc. unfold enter_idle_mode. rewrite atomically_step.
  unfold step_on, enter_idle_mode_round. rewrite Hc. reflexivity.
Qed.

Lemma exit_idle_mode_cases (w : t) (m : Z) :
  exit_idle_mode w m
  = Some (if Z.land (active_stripes w) m =? 0 then (false, w)
          else if nactive_workers w =? _terminate then (false, w)
               else (true, make (wrap32 (nactive_workers w + 1))
                                (active_stripes w))).
Proof.
  unfold exit_idle_mode. rewrite atomically_step.
  unfold step_on, exit_idle_mode_round.
  destruct (Z.eqb_spec (Z.land (active_stripes w) m) 0) as [He | He];
    [reflexivity |].
  destruct (nactive_workers w =? _terminate); [reflexivity |].
  destruct (is_cleared w) eqn:Hc; [| reflexivity].
  exfalso. apply He. destruct (is_cleared_fields w Hc) as [_ Hs].
  rewrite Hs. apply Z.land_0_l.
Qed.

(** X2: [set_active_stripes] ors the map into the stripe flags and keeps
    the worker count; so publishing is idempotent, the order of two
    publications does not matter, and stripes are active afterwards
    exactly when they were before or the map is not empty. *)
Theorem set_active_stripes_spec (w : t) (m m' : Z) :
  0 <= _state w < 2 ^ 64 -> 0 <= m < 2 ^ 32 -> 0 <= m' < 2 ^ 32 ->
  set_active_stripes w m
  = make (nactive_workers w) (Z.lor (active_stripes w) m) /\
  set_active_stripes (set_active_stripes w m) m = set_active_stripes w m /\
  set_active_stripes (set_active_stripes w m) m'
  = set_active_stripes (set_active_stripes w m') m /\
  (has_active_stripes (set_active_stripes w m) = true <->
   active_stripes w <> 0 \/ m <> 0).
Proof.
  intros Hw Hm Hm'.
  pose proof (active_stripes_range w) as Ha.
  pose proof (nactive_workers_range w) as Hn.
  assert (Hset : forall v x, 0 <= _state v < 2 ^ 64 -> 0 <= x < 2 ^ 32 ->
                 set_active_stripes v x
                 = make (nactive_workers v) (Z.lor (active_stripes v) x)).
  { intros v x Hv Hx. rewrite set_active_stripes_cases.
    destruct (Z.eqb_spec (Z.lor (active_stripes v) x) (active_stripes v))
      as [He | He]; [| reflexivity].
    rewrite He. symmetry. apply make_fields. exact Hv. }
  assert (Hrange : forall x, 0 <= x < 2 ^ 32 ->
                   0 <= _state (set_active_stripes w x) < 2 ^ 64).
  { intros x Hx. rewrite (Hset w x Hw Hx). apply make_range; [exact Hn |].
    apply lor_range; assumption. }
  split; [apply Hset; assumption |].
  split.
  { rewrite (Hset _ m (Hrange m Hm) Hm).
    destruct (set_active_stripes_fields w m Hm) as [Hn' Ha'].
    rewrite Hn', Ha', (Hset w m Hw Hm).
    rewrite <- Z.lor_assoc, Z.lor_diag. reflexivity. }
  split.
  { rewrite (Hset _ m' (Hrange m Hm) Hm'), (Hset _ m (Hrange m' Hm') Hm).
    destruct (set_active_stripes_fields w m Hm) as [Hn1 Ha1].
    destruct (set_active_stripes_fields w m' Hm') as [Hn2 Ha2].
    rewrite Hn1, Ha1, Hn2, Ha2. f_equal.
    rewrite <- !Z.lor_assoc. f_equal. apply Z.lor_comm. }
  unfold has_active_stripes.
  destruct (set_active_stripes_fields w m Hm) as [_ Ha'].
  rewrite Ha', negb_true_iff, Z.eqb_neq, Z.lor_eq_0_iff. lia.
Qed.

Lemma set_active_stripes_spec_witness :
  set_active_stripes (make 3 4) 1 = make 3 5.
Proof.
  destruct (set_active_stripes_spec (make 3 4) 1 1 ltac:(cbn; lia)
              ltac:(lia) ltac:(lia)) as [H _].
  exact H.
Defined.

(** X3: [exit_idle_mode] never fails its assertion; it answers [true]
    exactly when one of the worker's stripes is flagged and the word is
    not terminating, and then counts the worker as active again and
    keeps the stripe flags; otherwise it leaves the word as it is. *)
Theorem exit_idle_mode_spec (w : t) (m : Z) :
  exists r w',
    exit_idle_mode w m = Some (r, w') /\
    (r = true <->
     Z.land (active_stripes w) m <> 0 /\ nactive_workers w <> _terminate) /\
    (r = true ->
     nactive_workers w' = nactive_workers w + 1 /\
     active_stripes w' = active_stripes w) /\
    (r = false -> w' = w).
Proof.
  rewrite exit_idle_mode_cases.
  pose proof (active_stripes_range w) as Ha.
  pose proof (nactive_workers_range w) as Hn.
  destruct (Z.eqb_spec (Z.land (active_stripes w) m) 0) as [He | He].
  { exists false, w. intuition congruence. }
  destruct (Z.eqb_spec (nactive_workers w) _terminate) as [Ht | Ht].
  { exists false, w. intuition congruence. }
  eexists true, _. split; [reflexivity |].
  split; [intuition congruence |].
  split; [| discriminate].
  intros _. rewrite terminate_value in Ht.
  assert (Hw : wrap32 (nactive_workers w + 1) = nactive_workers w + 1)
    by (unfold wrap32; apply Z.mod_small; lia).
  rewrite Hw.
  split; [apply nactive_workers_make | apply active_stripes_make]; lia.
Qed.

(** *** The whole of [idle] *)

Lemma land_lnot_same (a m : Z) :
  Z.land a (Z.lnot m) = a <-> Z.land a m = 0.
Proof.
  split; intros H; apply Z.bits_inj'; intros n Hn;
    apply (f_equal (fun x => Z.testbit x n)) in H;
    rewrite ?Z.land_spec, ?Z.lnot_spec, ?Z.bits_0 in * by lia;
    destruct (Z.testbit a n); destruct (Z.testbit m n);
    cbn in *; congruence.
Qed.

Lemma idle_wait_answers (map : Z) (naps : list (t -> t)) :
  forall s,
  exists r s',
    idle_wait_among naps s map = Some (r, s') /\
    (r = Some true -> nactive_workers s' = _terminate) /\
    (r = Some false ->
     Z.land (active_stripes s') map <> 0 /\ nactive_workers s' <> 0).
Proof.
  induction naps as [| nap naps IH]; intros s;
    pose proof (active_stripes_range s) as Ha;
    pose proof (nactive_workers_range s) as Hn;
    pose proof terminate_value as Hterm;
    cbn [idle_wait_among]; rewrite enter_terminate_mode_cases.
  all: destruct (Z.eqb_spec (nactive_workers s) _terminate) as [Ht | Ht];
    [exists (Some true), s; split; [reflexivity |];
     split; [intros _; exact Ht | discriminate] |].
  all: destruct (negb (nactive_workers s =? 0)
                 || negb (active_stripes s =? 0)) eqn:Hbusy;
    [| exists (Some true), (make _terminate 0); split; [reflexivity |];
       split; [intros _; apply nactive_workers_make; lia | discriminate]].
  all: rewrite exit_idle_mode_cases.
  all: destruct (Z.eqb_spec (Z.land (active_stripes s) map) 0) as [He | He].
  - exists None, s. split; [reflexivity |]. split; discriminate.
  - rewrite (proj2 (Z.eqb_neq _ _) Ht).
    eexists (Some false), _. split; [reflexivity |].
    split; [discriminate |]. intros _.
    assert (Hw : wrap32 (nactive_workers s + 1) = nactive_workers s + 1)
      by (unfold wrap32; apply Z.mod_small; lia).
    rewrite Hw, active_stripes_make, nactive_workers_make by lia.
    split; [exact He | lia].
  - apply IH.
  - rewrite (proj2 (Z.eqb_neq _ _) Ht).
    eexists (Some false), _. split; [reflexivity |].
    split; [discriminate |]. intros _.
    assert (Hw : wrap32 (nactive_workers s + 1) = nactive_workers s + 1)
      by (unfold wrap32; apply Z.mod_small; lia).
    rewrite Hw, active_stripes_make, nactive_workers_make by lia.
    split; [exact He | lia].
Qed.

(** The wait loop of [ZMarkTerminate], whose sleeps are lists of what
    the other threads do to a terminating word, is the loop among
    these. *)
Lemma idle_wait_among_interference
      (map : Z) (naps : list (list interference)) :
  forall s,
    idle_wait naps s map
    = idle_wait_among (List.map others_interfere naps) s map.
Proof.
  induction naps as [| others naps IH]; intros s;
    cbn [idle_wait idle_wait_among List.map];
    destruct (enter_terminate_mode s) as [[[|] s1] |]; try reflexivity;
    destruct (exit_idle_mode s1 map) as [[[|] s2] |]; try reflexivity.
  apply IH.
Qed.

(** X16: on a word that is not cleared, [idle] fails no assertion,
    whatever becomes of the word during its sleeps.  When one of the
    worker's stripes is flagged it answers [false] at once, with these
    flags taken down and the worker still counted; it answers [true]
    only on a terminating word; and when it answers [false] after
    waiting, one of the worker's stripes is flagged and stays flagged,
    and the worker is counted again. *)
Theorem idle_answers (naps : list (t -> t)) (s : t) (map : Z) :
  is_cleared s = false ->
  exists r s',
    idle_among naps s map = Some (r, s') /\
    (Z.land (active_stripes s) map <> 0 ->
     r = Some false /\
     nactive_workers s' = nactive_workers s /\
     active_stripes s' = Z.land (active_stripes s) (Z.lnot map)) /\
    (r = Some true -> nactive_workers s' = _terminate) /\
    (Z.land (active_stripes s) map = 0 -> r = Some false ->
     Z.land (active_stripes s') map <> 0 /\ nactive_workers s' <> 0).
Proof.
  intros Hc. pose proof (active_stripes_range s) as Ha.
  pose proof (nactive_workers_range s) as Hn.
  unfold idle_among. rewrite (enter_idle_mode_cases s map Hc). cbv zeta.
  rewrite (land_not32 _ map Ha).
  assert (Hr : 0 <= Z.land (active_stripes s) (Z.lnot map) < 2 ^ 32)
    by (apply land_range; exact Ha).
  destruct (Z.eqb_spec (Z.land (active_stripes s) (Z.lnot map))
                       (active_stripes s)) as [He | He].
  - assert (Hz : Z.land (active_stripes s) map = 0)
      by (apply land_lnot_same; exact He).
    destruct (idle_wait_answers map naps
                (make (wrap32 (nactive_workers s - 1))
                      (Z.land (active_stripes s) (Z.lnot map))))
      as [r [s' [Hrun [Htrue Hfalse]]]].
    exists r, s'. split; [exact Hrun |].
    split; [intros Hne; contradiction |].
    split; [exact Htrue | intros _; exact Hfalse].
  - assert (Hz : Z.land (active_stripes s) map <> 0)
      by (intros H; apply He, land_lnot_same; exact H).
    eexists (Some false), _. split; [reflexivity |].
    split; [| split; [discriminate | intros H; contradiction]].
    intros _. split; [reflexivity |].
    split; [apply nactive_workers_make | apply active_stripes_make];
      assumption.
Qed.

(** Two workers; while the first sleeps the second enters idle mode, and
    the first then ends the marking. *)
Lemma idle_answers_witness :
  exists r s',
    idle_among [other_enters_idle 3] (make 2 0) 3 = Some (r, s') /\
    (r = Some true -> nactive_workers s' = _terminate).
Proof.
  destruct (idle_answers [other_enters_idle 3] (make 2 0) 3 eq_refl)
    as [r [s' [Hrun [_ [Hend _]]]]].
  exists r, s'. split; [exact Hrun | exact Hend].
Defined.

Example idle_ends_the_marking :
  idle_among [other_enters_idle 3] (make 2 0) 3
  = Some (Some true, make _terminate 0).
Proof. reflexivity. Qed.

Example idle_wakes_up :
  idle_among [others_interfere [OtherPublishes 2]] (make 2 0) 3
  = Some (Some false, make 2 2).
Proof. reflexivity. Qed.

End ZMarkTerminateLaws.

(** ** The workers of a mark task *)

Module ZMarkWorkersFacts.
Import Machine ZMarkTerminateState ZMarkTerminate ZMarkTerminateFacts.
Import ZMarkTerminateLaws ZMarkWorkers.

Lemma count_nonneg (c : status) (l : list status) : 0 <= count c l.
Proof. unfold count. lia. Qed.

Lemma count_le_length (c : status) (l : list status) :
  count c l <= Z.of_nat (length l).
Proof.
  unfold count. apply inj_le.
  induction l as [| u l IH]; [reflexivity |].
  cbn [filter]. destruct (status_eqb c u); cbn [length]; lia.
Qed.

Lemma count_cons (c u : status) (l : list status) :
  count c (u :: l) = Z.b2z (status_eqb c u) + count c l.
Proof.
  unfold count. cbn [filter].
  destruct (status_eqb c u); cbn [length Z.b2z]; lia.
Qed.

Lemma set_status_length (i : nat) (v : status) (l : list status) :
  length (set_status i v l) = length l.
Proof.
  revert i. induction l as [| u l IH]; intros [| i]; cbn; auto.
Qed.

(** Changing the status of one worker moves one unit between counts. *)
Lemma count_set_status (c u v : status) (l : list status) :
  forall i,
    nth_error l i = Some u ->
    count c (set_status i v l)
    = count c l - Z.b2z (status_eqb c u) + Z.b2z (status_eqb c v).
Proof.
  induction l as [| x l IH]; intros [| i] Hi; cbn in Hi; try discriminate.
  - injection Hi as ->. cbn [set_status]. rewrite !count_cons. lia.
  - cbn [set_status]. rewrite !count_cons, (IH i Hi). lia.
Qed.

Lemma count_repeat_marking (c : status) (n : nat) :
  count c (repeat Marking n) = if status_eqb c Marking then Z.of_nat n else 0.
Proof.
  induction n as [| n IH]; [destruct c; reflexivity |].
  cbn [repeat]. rewrite count_cons, IH.
  destruct c; cbn [status_eqb Z.b2z]; lia.
Qed.

Lemma start_consistent (n : nat) :
  Z.of_nat n < 2 ^ 32 - 1 -> consistent (start n).
Proof.
  intros Hn. unfold consistent, start, reset. cbn [word workers].
  rewrite repeat_length, !count_repeat_marking. cbn [status_eqb].
  rewrite nactive_workers_make by lia.
  split; [exact Hn |]. rewrite terminate_value. split; [tauto | lia].
Qed.

Lemma step_consistent (sys : system) (a : operation) :
  consistent sys -> uint32_action a ->
  exists sys', step sys a = Some sys' /\ consistent sys'.
Proof.
  intros [Hlen [Hrun Hend]] Ha. destruct sys as [w l]. cbn [word workers] in *.
  pose proof (nactive_workers_range w) as Hn.
  pose proof (active_stripes_range w) as Hs.
  destruct a as [m | i m | i | i m]; cbn [step word workers uint32_action] in *.
  - (* a thread publishes *)
    eexists. split; [reflexivity |].
    destruct (set_active_stripes_fields w m Ha) as [Hn' _].
    unfold consistent. cbn [word workers]. rewrite Hn'. tauto.
  - (* a marking worker calls idle *)
    destruct (nth_error l i) as [[| |] |] eqn:Hi;
      try (eexists; split; [reflexivity |]; split; [exact Hlen | tauto]).
    pose proof (count_set_status Marking Marking Waiting l i Hi) as Hcm.
    pose proof (count_set_status Terminated Marking Waiting l i Hi) as Hct.
    pose proof (count_set_status Waiting Marking Marking l i Hi) as Hpos.
    pose proof (count_nonneg Marking (set_status i Waiting l)) as Hge.
    pose proof (count_le_length Marking l) as Hle.
    cbn [status_eqb Z.b2z] in Hcm, Hct, Hpos.
    destruct (Z.eq_dec (nactive_workers w) _terminate) as [Ht | Ht];
      [specialize (Hend Ht); lia |].
    destruct (Hrun Ht) as [Hcount Hnone].
    assert (Hc : is_cleared w = false).
    { destruct (is_cleared w) eqn:Hc; [| reflexivity].
      destruct (is_cleared_fields w Hc) as [H0 _]. lia. }
    rewrite (enter_idle_mode_cases w m Hc). cbv zeta.
    pose proof (land_range (active_stripes w) (not32 m) Hs) as Hnew.
    destruct (Z.land (active_stripes w) (not32 m) =? active_stripes w).
    + eexists. split; [reflexivity |].
      unfold consistent. cbn [word workers].
      rewrite set_status_length, terminate_value in *.
      assert (Hw : wrap32 (nactive_workers w - 1) = nactive_workers w - 1)
        by (unfold wrap32; apply Z.mod_small; lia).
      rewrite Hw, nactive_workers_make by lia.
      split; [exact Hlen |]. split; lia.
    + eexists. split; [reflexivity |].
      unfold consistent. cbn [word workers].
      rewrite nactive_workers_make by lia.
      split; [exact Hlen |]. split; [intros _; tauto | intros H; lia].
  - (* a waiting worker polls for termination *)
    destruct (nth_error l i) as [[| |] |] eqn:Hi;
      try (eexists; split; [reflexivity |]; split; [exact Hlen | tauto]).
    pose proof (count_set_status Marking Waiting Terminated l i Hi) as Hcm.
    cbn [status_eqb Z.b2z] in Hcm.
    rewrite enter_terminate_mode_cases.
    destruct (Z.eqb_spec (nactive_workers w) _terminate) as [Ht | Ht].
    + eexists. split; [reflexivity |].
      unfold consistent. cbn [word workers]. rewrite set_status_length.
      split; [exact Hlen |]. split; [tauto |]. intros _.
      specialize (Hend Ht). lia.
    + destruct (Hrun Ht) as [Hcount Hnone].
      destruct (Z.eqb_spec (nactive_workers w) 0) as [H0 | H0];
        destruct (Z.eqb_spec (active_stripes w) 0) as [Hz | Hz];
        cbn [negb orb];
        try (eexists; split; [reflexivity |]; split; [exact Hlen | tauto]).
      eexists. split; [reflexivity |].
      unfold consistent. cbn [word workers]. rewrite set_status_length.
      assert (Hm : nactive_workers (make _terminate 0) = _terminate)
        by reflexivity.
      rewrite Hm. split; [exact Hlen |]. split; [tauto |]. intros _. lia.
  - (* a waiting worker polls for work *)
    destruct (nth_error l i) as [[| |] |] eqn:Hi;
      try (eexists; split; [reflexivity |]; split; [exact Hlen | tauto]).
    pose proof (count_set_status Marking Waiting Marking l i Hi) as Hcm.
    pose proof (count_set_status Terminated Waiting Marking l i Hi) as Hct.
    pose proof (count_le_length Marking (set_status i Marking l)) as Hle.
    rewrite set_status_length in Hle.
    cbn [status_eqb Z.b2z] in Hcm, Hct.
    rewrite exit_idle_mode_cases.
    destruct (Z.land (active_stripes w) m =? 0);
      [eexists; split; [reflexivity |]; split; [exact Hlen | tauto] |].
    destruct (Z.eqb_spec (nactive_workers w) _terminate) as [Ht | Ht];
      [eexists; split; [reflexivity |]; split; [exact Hlen | tauto] |].
    destruct (Hrun Ht) as [Hcount Hnone].
    eexists. split; [reflexivity |].
    unfold consistent. cbn [word workers].
    rewrite set_status_length, terminate_value in *.
    assert (Hw : wrap32 (nactive_workers w + 1) = nactive_workers w + 1)
      by (unfold wrap32; apply Z.mod_small; lia).
    rewrite Hw, nactive_workers_make by lia.
    split; [exact Hlen |]. split; lia.
Qed.

Lemma run_consistent (actions : list operation) :
  forall sys,
    consistent sys -> Forall uint32_action actions ->
    exists sys', run sys actions = Some sys' /\ consistent sys'.
Proof.
  induction actions as [| a actions IH]; intros sys Hsys Hall.
  - exists sys. split; [reflexivity | exact Hsys].
  - inversion Hall as [| ? ? Ha Hall']; subst.
    destruct (step_consistent sys a Hsys Ha) as [sys1 [Hstep Hsys1]].
    cbn [run]. rewrite Hstep. apply IH; assumption.
Qed.

(** X4: whatever the workers of a mark task and the flushing threads
    do, in whatever order, no assertion of the termination protocol
    fails; the worker count of the word is the number of workers that
    are marking, until the word terminates; and once a worker has left
    [idle] with [true] the word is terminating and no worker marks. *)
Theorem workers_stay_consistent (nworkers : nat) (actions : list operation) :
  Z.of_nat nworkers < 2 ^ 32 - 1 ->
  Forall uint32_action actions ->
  exists sys,
    run (start nworkers) actions = Some sys /\
    length (workers sys) = nworkers /\
    (nactive_workers (word sys) <> _terminate ->
     nactive_workers (word sys) = count Marking (workers sys)) /\
    (count Terminated (workers sys) <> 0 ->
     nactive_workers (word sys) = _terminate /\
     count Marking (workers sys) = 0).
Proof.
  intros Hn Hall.
  destruct (run_consistent actions (start nworkers)
              (start_consistent nworkers Hn) Hall) as [sys [Hrun Hsys]].
  exists sys. split; [exact Hrun |].
  assert (Hlen : forall acts s s', run s acts = Some s' ->
                 length (workers s') = length (workers s)).
  { induction acts as [| a acts IH]; intros s s' H; cbn [run] in H.
    - injection H as <-. reflexivity.
    - destruct (step s a) as [s1 |] eqn:Hs; [| discriminate].
      rewrite (IH _ _ H). clear - Hs.
      destruct a as [m | i m | i | i m]; cbn [step] in Hs.
      + injection Hs as <-. reflexivity.
      + destruct (nth_error (workers s) i) as [[| |] |];
          try (injection Hs as <-; reflexivity).
        destruct (enter_idle_mode (word s) m) as [[[|] w] |];
          try discriminate; injection Hs as <-; cbn [workers];
          [apply set_status_length | reflexivity].
      + destruct (nth_error (workers s) i) as [[| |] |];
          try (injection Hs as <-; reflexivity).
        destruct (enter_terminate_mode (word s)) as [[[|] w] |];
          try discriminate; injection Hs as <-; cbn [workers];
          [apply set_status_length | reflexivity].
      + destruct (nth_error (workers s) i) as [[| |] |];
          try (injection Hs as <-; reflexivity).
        destruct (exit_idle_mode (word s) m) as [[[|] w] |];
          try discriminate; injection Hs as <-; cbn [workers];
          [apply set_status_length | reflexivity]. }
  split.
  { rewrite (Hlen _ _ _ Hrun). cbn [start workers]. apply repeat_length. }
  destruct Hsys as [_ [Hrunning Hended]].
  split; [intros Ht; apply (Hrunning Ht) |].
  intros Hdone.
  destruct (Z.eq_dec (nactive_workers (word sys)) _terminate) as [Ht | Ht].
  - split; [exact Ht | exact (Hended Ht)].
  - destruct (Hrunning Ht) as [_ Hnone]. contradiction.
Qed.

Lemma workers_stay_consistent_witness :
  exists sys,
    run (start 2)
        [EnterIdle 0 3; Publish 2; EnterIdle 1 3; PollExit 0 3; EnterIdle 0 3;
         EnterIdle 1 3; PollTerminate 1; PollTerminate 0]
    = Some sys /\
    length (workers sys) = 2%nat.
Proof.
  destruct (workers_stay_consistent 2
              [EnterIdle 0 3; Publish 2; EnterIdle 1 3; PollExit 0 3;
               EnterIdle 0 3; EnterIdle 1 3; PollTerminate 1; PollTerminate 0]
              ltac:(cbn; lia)
              ltac:(repeat constructor; cbn; lia))
    as [sys [Hrun [Hlen _]]].
  exists sys. split; [exact Hrun | exact Hlen].
Defined.

Example two_workers_terminate :
  option_map workers
    (run (start 2)
         [EnterIdle 0 3; Publish 2; EnterIdle 1 3; PollExit 0 3; EnterIdle 0 3;
          EnterIdle 1 3; PollTerminate 1; PollTerminate 0])
  = Some [Terminated; Terminated].
Proof. reflexivity. Qed.

(** X5: when no worker is marking and no stripe is flagged, the next
    poll of a waiting worker ends its [idle] with [true]; and while a
    worker is marking or a stripe is flagged, no poll does, unless the
    word is terminating already. *)
Theorem poll_terminates_when_quiet (sys : system) (i : nat) :
  consistent sys ->
  nth_error (workers sys) i = Some Waiting ->
  nactive_workers (word sys) <> _terminate ->
  exists sys',
    step sys (PollTerminate i) = Some sys' /\
    (nth_error (workers sys') i = Some Terminated <->
     count Marking (workers sys) = 0 /\ active_stripes (word sys) = 0).
Proof.
  intros [Hlen [Hrun _]] Hi Ht. destruct (Hrun Ht) as [Hcount _].
  destruct sys as [w l]. cbn [word workers] in *.
  cbn [step word workers]. rewrite Hi, enter_terminate_mode_cases.
  assert (Hset : forall v, nth_error (set_status i v l) i = Some v).
  { clear - Hi. revert i Hi.
    induction l as [| u l IH]; intros [| i] Hi; cbn in Hi; try discriminate;
      cbn; [reflexivity | apply IH; exact Hi]. }
  destruct (Z.eqb_spec (nactive_workers w) _terminate) as [|_];
    [contradiction |].
  destruct (Z.eqb_spec (nactive_workers w) 0) as [H0 | H0];
    destruct (Z.eqb_spec (active_stripes w) 0) as [Hz | Hz];
    cbn [negb orb]; eexists; (split; [reflexivity |]); cbn [workers];
    rewrite ?Hset, ?Hi; split; intros H; try congruence; try lia;
    try (destruct H; congruence); try (destruct H; lia).
Qed.

Lemma poll_terminates_when_quiet_witness :
  exists sys',
    step (System (make 0 0) [Waiting; Waiting]) (PollTerminate 1) = Some sys' /\
    nth_error (workers sys') 1 = Some Terminated.
Proof.
  assert (Hc : consistent (System (make 0 0) [Waiting; Waiting])).
  { unfold consistent. cbn [word workers].
    split; [cbn; lia |]. split; [intros _; split; reflexivity |].
    intros H. vm_compute in H. discriminate H. }
  destruct (poll_terminates_when_quiet
              (System (make 0 0) [Waiting; Waiting]) 1 Hc eq_refl
              ltac:(vm_compute; discriminate)) as [sys' [Hstep Hiff]].
  exists sys'. split; [exact Hstep |].
  apply Hiff. split; reflexivity.
Defined.

End ZMarkWorkersFacts.

(** ** Following an array to the end *)

Module ZMarkArrayDrainFacts.
Import Machine Align AlignFacts ZMarkArray ZMarkArrayFacts ZMarkArrayDrain.
Import ZMarkStackEntryWord ZMarkStackEntryFacts.

Section Shift.
Variable k : Z.
Variable L : layout.
Variable max_array_length : Z.
Hypothesis shift_range : 3 <= k < 64.
Hypothesis length_bits_range : 0 <= partial_array_length_bits L.
Hypothesis offset_bits_range : 0 <= partial_array_offset_bits L.
Hypothesis word_range :
  2 + partial_array_length_bits L + partial_array_offset_bits L <= 64.
Hypothesis max_array_length_range : 0 <= max_array_length < 2 ^ 31.

Let M := 2 ^ k.
Let lb := partial_array_length_bits L.
Let ob := partial_array_offset_bits L.

Lemma min_size_range : 8 <= M <= 2 ^ 63.
Proof. exact (min_size_bounds k L shift_range). Qed.









(** *** Entries and the ranges they stand for *)

(** X13: [push_partial_array] makes no entry for an address that is not
    a multiple of [ZMarkPartialArrayMinSize] (a failed assertion), nor
    when the offset or the length does not fit its field; otherwise it
    makes a word of 64 bits that has the partial array flag and decodes
    in [follow_partial_array] to the same address and finalizable flag
    and to the size rounded down to whole oops, so that a range of whole
    oops is followed as [follow_array] would follow it. *)
Theorem partial_array_round_trip
        (addr size : Z) (fin : bool) (fuel : nat) :
  0 <= addr < 2 ^ 64 -> 0 <= size < 2 ^ 64 ->
  let offset := addr / ZMarkPartialArrayMinSize k in
  let length := size / oopSize in
  (addr mod ZMarkPartialArrayMinSize k <> 0 ->
   push_partial_array k L addr size fin = None) /\
  (~ (offset < 2 ^ partial_array_offset_bits L /\
      length < 2 ^ partial_array_length_bits L) ->
   push_partial_array k L addr size fin = None) /\
  (addr mod ZMarkPartialArrayMinSize k = 0 ->
   offset < 2 ^ partial_array_offset_bits L ->
   length < 2 ^ partial_array_length_bits L ->
   exists entry,
     push_partial_array k L addr size fin = Some entry /\
     0 <= entry < 2 ^ 64 /\
     is_partial_array entry = true /\
     finalizable entry = fin /\
     partial_array_addr k L entry = addr /\
     partial_array_size L entry = size - size mod oopSize /\
     (size mod oopSize = 0 ->
      follow_partial_array k L max_array_length fuel entry
      = follow_array k L max_array_length fuel addr size fin)).
Proof.
  intros Haddr Hsize. cbv zeta. pose proof min_size_range as HM.
  rewrite (min_size_pow2 k). fold M lb ob.
  unfold push_partial_array. rewrite (min_size_pow2 k).
  rewrite is_aligned_pow2 by lia. fold M.
  rewrite Z.shiftr_div_pow2 by lia. fold M.
  assert (Hoff : 0 <= addr / M) by (apply Z.div_pos; lia).
  assert (Hlen : 0 <= size / oopSize)
    by (apply Z.div_pos; unfold oopSize; lia).
  split; [| split].
  - intros Hmis. apply Z.eqb_neq in Hmis. rewrite Hmis. reflexivity.
  - intros Hunfit. destruct (addr mod M =? 0); [| reflexivity].
    apply partial_array_entry_unfit. fold ob lb. lia.
  - intros Hal Hofit Hlfit. rewrite Hal. cbn [Z.eqb].
    destruct (partial_array_entry_fields L length_bits_range
                offset_bits_range (addr / M) (size / oopSize) fin
                ltac:(fold ob; lia) ltac:(fold lb; lia))
      as [entry [Hentry [Ho [Hl [Hfin [Hpartial Hword]]]]]].
    exists entry. split; [exact Hentry |].
    split.
    { split; [lia |]. eapply Z.lt_le_trans; [apply Hword |].
      apply Z.pow_le_mono_r; lia. }
    split; [exact Hpartial |]. split; [exact Hfin |].
    assert (Ha : partial_array_addr k L entry = addr).
    { unfold partial_array_addr. rewrite Ho, Z.shiftl_mul_pow2 by lia.
      fold M. pose proof (Z.div_mod addr M ltac:(lia)).
      unfold wrap64. rewrite Z.mod_small by lia. lia. }
    assert (Hs : partial_array_size L entry = size - size mod oopSize).
    { unfold partial_array_size. rewrite Hl. unfold oopSize in *.
      pose proof (Z.div_mod size 8 ltac:(lia)).
      pose proof (Z.mod_pos_bound size 8 ltac:(lia)).
      unfold wrap64. rewrite Z.mod_small by lia. lia. }
    split; [exact Ha |]. split; [exact Hs |].
    intros Hoops. unfold follow_partial_array.
    rewrite Ha, Hs, Hoops, Z.sub_0_r, Hfin. reflexivity.
Qed.

(** *** Draining the entries *)














Section Schedule.
Variable schedule :
  list partial_array -> list partial_array -> list partial_array.
Hypothesis schedule_permutes :
  forall pushed rest, Permutation (schedule pushed rest) (pushed ++ rest).



End Schedule.

End Shift.



Lemma partial_array_round_trip_witness :
  exists entry,
    push_partial_array 12 (Layout 30 32) 8192 4096 true = Some entry /\
    partial_array_addr 12 (Layout 30 32) entry = 8192 /\
    partial_array_size (Layout 30 32) entry = 4096.
Proof.
  destruct (proj2 (proj2 (partial_array_round_trip 12 (Layout 30 32)
                            2147483647 ltac:(lia) ltac:(cbn; lia)
                            ltac:(cbn; lia) ltac:(cbn; lia)
                            8192 4096 true 64
                            ltac:(lia) ltac:(lia)))
                  eq_refl eq_refl eq_refl)
    as [entry [Hpush [_ [_ [_ [Ha [Hs _]]]]]]].
  exists entry. split; [exact Hpush |]. split; [exact Ha | exact Hs].
Defined.

Example partial_array_entry_scenario :
  push_partial_array 12 (Layout 30 32) 8192 4096 true = Some 8589936643 /\
  push_partial_array 12 (Layout 30 32) 8200 4096 true = None /\
  push_partial_array 12 (Layout 30 32) 8192 (8 * 2 ^ 30) true = None.
Proof. vm_compute. repeat split. Qed.



Example follow_array_to_end_scenario :
  option_map (map (fun followed => (fst followed, snd followed * oopSize)))
             (follow_array_to_end 12 (Layout 30 32) 2147483647 lifo 100 64
                                  65552 80000 false)
  = Some [(65552, 4080); (69632, 4096); (73728, 4096); (77824, 4096);
          (81920, 4096); (86016, 4096); (90112, 4096); (94208, 4096);
          (98304, 4096); (102400, 4096); (106496, 4096); (110592, 4096);
          (114688, 4096); (118784, 4096); (122880, 4096); (126976, 4096);
          (131072, 4096); (135168, 4096); (139264, 4096); (143360, 2192)].
Proof. vm_compute. reflexivity. Qed.

End ZMarkArrayDrainFacts.
(** ** Flushing, restarting and the counters of a cycle *)

Module ZMarkCycleFacts.
Import Machine ZMarkTerminateState ZMark ZMarkCycle.
Import ZMarkTerminateFacts ZMarkTerminateLaws ZMarkFacts.

Lemma flush_threads_fields (published : list Z) :
  Forall (fun m => 0 <= m < 2 ^ 32) published ->
  forall w,
    nactive_workers (flush_threads w published) = nactive_workers w /\
    active_stripes (flush_threads w published)
    = fold_left Z.lor published (active_stripes w).
Proof.
  unfold flush_threads.
  induction 1 as [| m published Hm _ IH]; intros w; [split; reflexivity |].
  cbn [fold_left].
  destruct (set_active_stripes_fields w m Hm) as [Hn Hs].
  destruct (IH (ZMarkTerminate.set_active_stripes w m)) as [Hn' Hs'].
  rewrite Hn', Hs', Hn, Hs. split; reflexivity.
Qed.

Lemma fold_lor_zero (published : list Z) :
  Forall (fun m => 0 <= m < 2 ^ 32) published ->
  forall s, 0 <= s ->
    (fold_left Z.lor published s = 0 <->
     s = 0 /\ Forall (fun m => m = 0) published).
Proof.
  induction 1 as [| m published Hm _ IH]; intros s Hs; cbn [fold_left].
  - split; [intros ->; split; [reflexivity | constructor] | intros [H _]; exact H].
  - rewrite IH by (apply Z.lor_nonneg; lia).
    rewrite Z.lor_eq_0_iff. split.
    + intros [[H1 H2] H3]. split; [exact H1 | constructor; assumption].
    + intros [H1 H2]. inversion H2; subst. repeat split; assumption.
Qed.

Lemma flush_threads_active (w : ZMarkTerminateState.t) (published : list Z) :
  Forall (fun m => 0 <= m < 2 ^ 32) published ->
  (ZMarkTerminate.has_active_stripes (flush_threads w published) = false <->
   active_stripes w = 0 /\ Forall (fun m => m = 0) published).
Proof.
  intros Hp. unfold ZMarkTerminate.has_active_stripes.
  destruct (flush_threads_fields published Hp w) as [_ ->].
  pose proof (active_stripes_range w) as Ha.
  rewrite <- (fold_lor_zero published Hp (active_stripes w)) by lia.
  destruct (Z.eqb_spec (fold_left Z.lor published (active_stripes w)) 0);
    cbn [negb]; intuition congruence.
Qed.

Lemma all_zero_or_not (l : list Z) :
  Forall (fun m => m = 0) l \/ Exists (fun m => m <> 0) l.
Proof.
  induction l as [| x l [IH | IH]].
  - left. constructor.
  - destruct (Z.eq_dec x 0) as [Hx | Hx].
    + left. constructor; assumption.
    + right. apply Exists_cons_hd. exact Hx.
  - right. apply Exists_cons_tl. exact IH.
Qed.

Section RestartMax.
Variable ZMarkRestartMax : Z.

#[local] Abbreviation max_restarts := (max_restarts ZMarkRestartMax).
#[local] Abbreviation restart := (restart ZMarkRestartMax).
#[local] Abbreviation mark_loop := (mark_loop ZMarkRestartMax).
#[local] Abbreviation within_limit := (within_limit ZMarkRestartMax).

(** X8: [restart] answers [true] exactly when the restart counter is
    below [ZMarkRestartMax * (ncontinue + 1)] and, after the flush, a
    stripe is flagged: one that was flagged before, or one that a
    flushed thread published.  It then counts one restart; the other
    counters stay, and the restart counter stays when the answer is
    [false]. *)
Theorem restart_iff_work_published (m : t) (published : list Z) :
  within_limit m ->
  Forall (fun stripe_map => 0 <= stripe_map < 2 ^ 32) published ->
  let '(again, m', _) := restart m published in
  (again = true <->
   _nrestart m < ZMarkRestartMax * (_ncontinue m + 1) /\
   (active_stripes (_terminate m) <> 0 \/
    Exists (fun stripe_map => stripe_map <> 0) published)) /\
  _nrestart m' = (if again then _nrestart m + 1 else _nrestart m) /\
  _ncomplete m' = _ncomplete m /\
  _ncontinue m' = _ncontinue m.
Proof.
  intros Hlim Hp. pose proof (max_restarts_exact _ m Hlim) as Hmax.
  assert (Hbound : 0 <= _nrestart m <= ZMarkRestartMax * (_ncontinue m + 1))
    by (destruct Hlim as [_ [_ [_ H]]]; exact H).
  destruct (Z.eq_dec (_nrestart m) (max_restarts m)) as [He | Hne].
  - rewrite (restart_at_limit _ m published He).
    split; [| repeat split].
    split; [discriminate | intros [H _]; lia].
  - rewrite (restart_below_limit _ m published Hlim Hne). cbv zeta.
    pose proof (flush_threads_active (_terminate m) published Hp) as Hact.
    destruct (ZMarkTerminate.has_active_stripes
                (flush_threads (_terminate m) published)) eqn:Hactive;
      cbn [_nrestart _ncomplete _ncontinue]; (split; [| repeat split]).
    + split; [intros _ | reflexivity].
      split; [lia |].
      destruct (Z.eq_dec (active_stripes (_terminate m)) 0) as [Hz | Hz];
        [right | left; exact Hz].
      destruct (all_zero_or_not published) as [Hall | Hex]; [| exact Hex].
      destruct Hact as [_ Hact].
      assert (true = false) by (apply Hact; split; assumption).
      discriminate.
    + split; [discriminate |]. intros [_ [Hz | Hex]].
      * destruct Hact as [Hact _]. destruct (Hact eq_refl) as [H _].
        contradiction.
      * destruct Hact as [Hact _]. destruct (Hact eq_refl) as [_ H].
        apply Exists_exists in Hex. destruct Hex as [x [Hin Hx]].
        rewrite Forall_forall in H. exfalso. apply Hx, H, Hin.
Qed.

Lemma mark_loop_counts (env : nat -> round) (n : nat) :
  forall (i : nat) (m : t),
    within_limit m ->
    Z.to_nat (max_restarts m - _nrestart m) = n ->
    exists m' events,
      (forall fuel, (n < fuel)%nat ->
                    mark_loop fuel env i m = Some (m', events)) /\
      within_limit m' /\
      _ncontinue m' = _ncontinue m /\
      mark_task_runs events = _nrestart m' - _nrestart m + 1.
Proof.
  induction n as [| n IH]; intros i m Hlim Hn;
    pose proof (max_restarts_exact _ m Hlim) as Hmax;
    set (ran := Build (left_by_mark_task (env i)) (_nrestart m)
                      (_ncomplete m) (_ncontinue m));
    assert (Hran : within_limit ran) by exact Hlim;
    assert (Hmaxran : max_restarts ran = max_restarts m) by reflexivity.
  - assert (He : _nrestart ran = max_restarts ran).
    { destruct Hlim as [Hc [Hr [Hlt Hb]]]. cbn [_nrestart ran].
      rewrite Hmaxran. lia. }
    exists ran, [RunMarkTask].
    split; [| split; [exact Hran | split; [reflexivity | cbn; lia]]].
    intros [| fuel] Hfuel; [lia |]. cbn [ZMark.mark_loop].
    fold ran. rewrite (restart_at_limit _ ran _ He). reflexivity.
  - assert (Hne : _nrestart ran <> max_restarts ran).
    { cbn [_nrestart ran]. rewrite Hmaxran. lia. }
    pose proof (restart_below_limit _ ran (published_by_flush (env i))
                  Hran Hne) as Hstep.
    cbv zeta in Hstep.
    pose proof (restart_keeps_limit _ ran (published_by_flush (env i)) Hran)
      as Hkeep.
    rewrite Hstep in Hkeep. cbn [fst snd] in Hkeep.
    destruct (ZMarkTerminate.has_active_stripes
                (flush_threads (_terminate ran)
                               (published_by_flush (env i)))) eqn:Hactive.
    + destruct (IH (S i) _ Hkeep)
        as [m' [events [Hrun [Hlim' [Hcont Hcount]]]]].
      { clear - Hn. subst ran. unfold ZMark.max_restarts in *.
        cbn [_ncontinue _nrestart] in *. lia. }
      exists m', (RunMarkTask :: [FlushVMAndJavaThreads] ++ events).
      split; [| split; [exact Hlim' | split; [exact Hcont |]]].
      * intros [| fuel] Hfuel; [lia |]. cbn [ZMark.mark_loop].
        fold ran. rewrite Hstep. rewrite Hrun by lia. reflexivity.
      * cbn [app]. rewrite !mark_task_runs_cons. cbn [is_mark_task].
        rewrite Hcount. cbn [_nrestart ran]. lia.
    + exists (Build (flush_threads (_terminate ran)
                                   (published_by_flush (env i)))
                    (_nrestart ran) (_ncomplete ran) (_ncontinue ran)),
             (RunMarkTask :: [FlushVMAndJavaThreads]).
      split; [| split; [exact Hkeep | split; [reflexivity | cbn; lia]]].
      intros [| fuel] Hfuel; [lia |]. cbn [ZMark.mark_loop].
      fold ran. rewrite Hstep. reflexivity.
Qed.

Lemma end_counters (m : t) (published : list Z)
      (left_by_mark_task : ZMarkTerminateState.t) :
  let '(completed, m') := end_ m published left_by_mark_task in
  _nrestart m' = _nrestart m /\
  _ncontinue m'
  = (if completed then _ncontinue m else wrap32 (_ncontinue m + 1)) /\
  (completed = true ->
   ZMarkTerminate.has_active_stripes (_terminate m') = false).
Proof.
  unfold end_, complete, continue_mark.
  destruct (ZMarkTerminate.has_active_stripes
              (flush_threads (_terminate m) published)) eqn:Hflush;
    cbn [_terminate].
  - destruct (ZMarkTerminate.has_active_stripes left_by_mark_task) eqn:Hleft;
      cbn [negb _nrestart _ncontinue _terminate];
      repeat split; try discriminate. intros _. exact Hleft.
  - rewrite Hflush. cbn [negb _nrestart _ncontinue _terminate].
    repeat split. intros _. exact Hflush.
Qed.

Lemma run_calls_counters (fuel : nat) (calls : list driver_call) :
  forall m : t,
    within_limit m ->
    _ncontinue m + Z.of_nat (length calls) < 2 ^ 32 - 1 ->
    ZMarkRestartMax * (_ncontinue m + Z.of_nat (length calls) + 1) < 2 ^ 32 ->
    (Z.to_nat (ZMarkRestartMax
               * (_ncontinue m + Z.of_nat (length calls) + 1)) < fuel)%nat ->
    exists m' outcomes,
      run_calls ZMarkRestartMax fuel calls m = Some (m', outcomes) /\
      within_limit m' /\
      _ncontinue m' = _ncontinue m + continuations outcomes /\
      _nrestart m'
      = _nrestart m + concurrent_runs outcomes - marks outcomes.
Proof.
  induction calls as [| c calls IH]; intros m Hlim Hcont Hmax Hfuel.
  - exists m, []. cbn [run_calls continuations concurrent_runs marks].
    split; [reflexivity |]. split; [exact Hlim |]. split; lia.
  - assert (Hpos : 0 <= ZMarkRestartMax)
      by (destruct Hlim as [_ [H _]]; exact H).
    assert (Hnc : 0 <= _ncontinue m)
      by (destruct Hlim as [H _]; lia).
    cbn [length] in Hcont, Hmax, Hfuel.
    destruct c as [initial env | published left_by_mark_task];
      cbn [run_calls].
    + destruct (mark_loop_counts env _ 0%nat m Hlim eq_refl)
        as [m1 [events [Hrun [Hlim1 [Hcont1 Hcount1]]]]].
      unfold mark. rewrite Hrun.
      2:{ rewrite (max_restarts_exact _ m Hlim).
          destruct Hlim as [_ [_ [_ Hb]]]. nia. }
      assert (H1 : _ncontinue m1 + Z.of_nat (length calls) < 2 ^ 32 - 1)
        by lia.
      assert (H2 : ZMarkRestartMax
                   * (_ncontinue m1 + Z.of_nat (length calls) + 1)
                   <= ZMarkRestartMax
                      * (_ncontinue m + Z.of_nat (S (length calls)) + 1))
        by (rewrite Hcont1; apply Z.mul_le_mono_nonneg_l; lia).
      destruct (IH m1 Hlim1 H1 ltac:(lia)) as [m' [outcomes [Hrest [Hlim' [Hc' Hr']]]]].
      { eapply Nat.le_lt_trans; [| exact Hfuel].
        apply Z2Nat.inj_le; try lia;
          apply Z.mul_nonneg_nonneg; lia. }
      rewrite Hrest. exists m', (Marked (if initial then RunConcurrentRoots :: events else events) :: outcomes).
      split; [reflexivity |]. split; [exact Hlim' |].
      cbn [continuations concurrent_runs marks].
      assert (Hsame :
                mark_task_runs
                  (if initial then RunConcurrentRoots :: events else events)
                = mark_task_runs events)
        by (destruct initial; [rewrite mark_task_runs_cons |]; reflexivity).
      rewrite Hsame. split; lia.
    + pose proof (end_counters m published left_by_mark_task) as Hend.
      destruct (end_ m published left_by_mark_task) as [completed m1] eqn:He.
      destruct Hend as [Hr1 [Hc1 _]].
      assert (Hc1' : _ncontinue m1
                     = if completed then _ncontinue m else _ncontinue m + 1).
      { rewrite Hc1. destruct completed; [reflexivity |].
        unfold wrap32. apply Z.mod_small. lia. }
      assert (Hlim1 : within_limit m1).
      { destruct Hlim as [Ha [Hb [Hc Hd]]]. unfold ZMark.within_limit.
        rewrite Hr1, Hc1'. destruct completed; [repeat split; lia |].
        repeat split; try lia; nia. }
      assert (H0 : _ncontinue m <= _ncontinue m1 <= _ncontinue m + 1)
        by (rewrite Hc1'; destruct completed; lia).
      assert (H1 : _ncontinue m1 + Z.of_nat (length calls) < 2 ^ 32 - 1)
        by lia.
      assert (H2 : ZMarkRestartMax
                   * (_ncontinue m1 + Z.of_nat (length calls) + 1)
                   <= ZMarkRestartMax
                      * (_ncontinue m + Z.of_nat (S (length calls)) + 1))
        by (apply Z.mul_le_mono_nonneg_l; lia).
      destruct (IH m1 Hlim1 H1 ltac:(lia)) as [m' [outcomes [Hrest [Hlim' [Hc' Hr']]]]].
      { eapply Nat.le_lt_trans; [| exact Hfuel].
        apply Z2Nat.inj_le; try lia;
          apply Z.mul_nonneg_nonneg; lia. }
      rewrite Hrest. exists m', (Ended completed :: outcomes).
      split; [reflexivity |]. split; [exact Hlim' |].
      cbn [continuations concurrent_runs marks].
      rewrite Hc', Hr', Hc1', Hr1. destruct completed; split; lia.
Qed.

(** X9: in a cycle, that is after [prepare_mark], whatever calls of
    [mark] and [end] follow and whatever the workers and threads do,
    every call returns, [ncontinue] is the number of calls of [end] that
    answered [false], [nrestart] is the number of runs of the concurrent
    mark task beyond the first of each call of [mark], and so these
    runs number at most the calls of [mark] plus [ZMarkRestartMax] for
    the cycle and for each continuation. *)
Theorem cycle_counters (m : t) (calls : list driver_call) (fuel : nat) :
  0 <= ZMarkRestartMax ->
  Z.of_nat (length calls) < 2 ^ 32 - 1 ->
  ZMarkRestartMax * (Z.of_nat (length calls) + 1) < 2 ^ 32 ->
  (Z.to_nat (ZMarkRestartMax * (Z.of_nat (length calls) + 1)) < fuel)%nat ->
  exists m' outcomes,
    run_calls ZMarkRestartMax fuel calls (prepare_mark m)
    = Some (m', outcomes) /\
    _ncontinue m' = continuations outcomes /\
    _nrestart m' = concurrent_runs outcomes - marks outcomes /\
    concurrent_runs outcomes
    <= marks outcomes + ZMarkRestartMax * (continuations outcomes + 1).
Proof.
  intros Hpos Hlen Hmax Hfuel.
  assert (Hlim : within_limit (prepare_mark m))
    by (apply prepare_mark_within_limit; nia).
  destruct (run_calls_counters fuel calls (prepare_mark m) Hlim)
    as [m' [outcomes [Hrun [Hlim' [Hc Hr]]]]];
    cbn [prepare_mark _ncontinue]; try assumption; try lia.
  exists m', outcomes. cbn [prepare_mark _ncontinue _nrestart] in Hc, Hr.
  split; [exact Hrun |]. split; [lia |]. split; [lia |].
  destruct Hlim' as [_ [_ [_ Hb]]]. rewrite Hc in Hb. lia.
Qed.

End RestartMax.

Lemma restart_iff_work_published_witness :
  fst (fst (restart 1 (Build (make 0 0) 0 0 0) [0; 4])) = true.
Proof.
  pose proof (restart_iff_work_published 1 (Build (make 0 0) 0 0 0) [0; 4])
    as H.
  destruct (restart 1 (Build (make 0 0) 0 0 0) [0; 4]) as [[again m'] events].
  destruct H as [[_ H] _].
  - unfold within_limit. cbn. lia.
  - repeat constructor; lia.
  - cbn [fst]. apply H. split; [cbn; lia |].
    right. apply Exists_cons_tl, Exists_cons_hd. lia.
Defined.

Lemma cycle_counters_witness :
  exists m' outcomes,
    run_calls 1 6
      [CallMark true (fun _ => Round (make 0 1) []);
       CallEnd [2] (make 0 1);
       CallMark false (fun _ => Round (make 0 0) []);
       CallEnd [] (make 0 0)]
      (prepare_mark (Build (make 0 0) 7 7 7))
    = Some (m', outcomes) /\
    _ncontinue m' = continuations outcomes.
Proof.
  destruct (cycle_counters 1 (Build (make 0 0) 7 7 7)
              [CallMark true (fun _ => Round (make 0 1) []);
               CallEnd [2] (make 0 1);
               CallMark false (fun _ => Round (make 0 0) []);
               CallEnd [] (make 0 0)] 6
              ltac:(lia) ltac:(cbn; lia) ltac:(cbn; lia) ltac:(cbn; lia))
    as [m' [outcomes [Hrun [Hc _]]]].
  exists m', outcomes. split; assumption.
Defined.

Example cycle_of_two_marks :
  option_map (fun r => (snd r, _nrestart (fst r), _ncomplete (fst r),
                        _ncontinue (fst r)))
    (run_calls 1 5
       [CallMark true (fun _ => Round (make 0 1) []);
        CallEnd [2] (make 0 1);
        CallMark false (fun _ => Round (make 0 0) []);
        CallEnd [] (make 0 0)]
       (prepare_mark (Build (make 0 0) 7 7 7)))
  = Some ([Marked [RunConcurrentRoots; RunMarkTask; FlushVMAndJavaThreads;
                   RunMarkTask];
           Ended false;
           Marked [RunMarkTask; FlushVMAndJavaThreads];
           Ended true],
          1, 1, 1).
Proof. vm_compute. reflexivity. Qed.

End ZMarkCycleFacts.
(** ** Stripes and their workers *)

Module ZMarkStripesFacts.
Import Machine ZMarkAffinity ZMarkStripes ZMarkAffinityFacts.

Lemma round_down_power_of_2_spec (value : Z) :
  1 <= value ->
  round_down_power_of_2 value = 2 ^ Z.log2 value /\
  2 ^ Z.log2 value <= value < 2 * 2 ^ Z.log2 value.
Proof.
  intros Hv. unfold round_down_power_of_2.
  pose proof (Z.log2_nonneg value).
  rewrite Z.shiftl_1_l. split; [reflexivity |].
  pose proof (Z.log2_spec value ltac:(lia)) as Hs.
  rewrite Z.pow_succ_r in Hs by lia. lia.
Qed.

Lemma calculate_nstripes_pow2 (j W : Z) :
  0 <= j -> 1 <= W ->
  exists k,
    0 <= k <= j /\
    calculate_nstripes (2 ^ j) W = 2 ^ k /\
    2 ^ k <= W /\
    (k = j \/ W < 2 * 2 ^ k).
Proof.
  intros Hj HW. unfold calculate_nstripes, MIN2.
  destruct (round_down_power_of_2_spec W HW) as [-> Hlog].
  pose proof (Z.log2_nonneg W) as Hnn.
  destruct (Z.ltb_spec (2 ^ Z.log2 W) (2 ^ j)) as [Hlt | Hge].
  - exists (Z.log2 W). repeat split; try lia.
    apply Z.pow_lt_mono_r_iff in Hlt; lia.
  - exists j. repeat split; try lia.
Qed.

(** X10: the number of stripes [prepare_mark] calculates is a power of
    two, at most [ZMarkStripesMax] and at most the number of workers,
    and the largest such; with it [set_default_affinity] never fails
    its assertion, lets every worker steal from all stripes, and gives
    every stripe a worker whose home it is: the worker with the number
    of the stripe. *)
Theorem calculate_nstripes_gives_every_stripe_a_worker (j nworkers : Z) :
  0 <= j <= 5 -> 1 <= nworkers < 2 ^ 32 ->
  let nstripes := calculate_nstripes (2 ^ j) nworkers in
  (exists k, 0 <= k <= j /\ nstripes = 2 ^ k) /\
  nstripes <= nworkers /\
  (nstripes = 2 ^ j \/ nworkers < 2 * nstripes) /\
  (forall worker_id,
      0 <= worker_id < nworkers ->
      exists index,
        worker_affinity (2 ^ j) nworkers worker_id
        = Some (index, Z.ones nstripes) /\
        0 <= index < nstripes) /\
  (forall stripe,
      0 <= stripe < nstripes ->
      worker_affinity (2 ^ j) nworkers stripe
      = Some (stripe, Z.ones nstripes)).
Proof.
  intros Hj HW. cbv zeta. unfold worker_affinity.
  destruct (calculate_nstripes_pow2 j nworkers ltac:(lia) ltac:(lia))
    as [k [Hk [-> [Hle Hmax]]]].
  assert (Hk5 : 0 <= k <= 5) by lia.
  split; [exists k; split; [lia | reflexivity] |].
  split; [exact Hle |].
  split; [destruct Hmax as [-> | H]; [left; reflexivity | right; exact H] |].
  split.
  - intros id Hid. exists (select_stripe (2 ^ k) nworkers id).
    split; [apply (set_default_affinity_value k nworkers Hk5 HW id Hid) |].
    apply (select_stripe_bounds k nworkers Hk5 HW id Hid).
  - intros stripe Hs.
    rewrite (set_default_affinity_value k nworkers Hk5 HW stripe ltac:(lia)).
    pose proof (limit_bounds k nworkers Hk5 HW) as HL.
    pose proof (nstripes_bounds k nworkers Hk5) as HN.
    assert (Hone : 1 <= nworkers / 2 ^ k)
      by (apply Z.div_le_lower_bound; lia).
    rewrite (select_stripe_natural k nworkers Hk5 HW stripe) by nia.
    rewrite Z.mod_small by lia. reflexivity.
Qed.

Lemma calculate_nstripes_gives_every_stripe_a_worker_witness :
  calculate_nstripes (2 ^ 4) 7 <= 7 /\
  worker_affinity (2 ^ 4) 7 3 = Some (3, Z.ones (calculate_nstripes (2 ^ 4) 7)).
Proof.
  destruct (calculate_nstripes_gives_every_stripe_a_worker
              4 7 ltac:(lia) ltac:(lia)) as [_ [Hle [_ [_ Hhome]]]].
  split; [exact Hle | apply Hhome; vm_compute; split; [discriminate | reflexivity]].
Defined.

(** X11: the workers at and above the spillover limit get home stripes
    that grow strictly with the worker id, so no two of them share a
    home stripe, and a stripe is home to at most one of them. *)
Theorem spillover_workers_spread (k nworkers a b : Z) :
  0 <= k <= 5 -> 1 <= nworkers < 2 ^ 32 ->
  (nworkers / 2 ^ k) * 2 ^ k <= a -> a < b -> b < nworkers ->
  exists index_a index_b map,
    set_default_affinity (2 ^ k) nworkers a = Some (index_a, map) /\
    set_default_affinity (2 ^ k) nworkers b = Some (index_b, map) /\
    index_a < index_b.
Proof.
  intros Hk HW Ha Hab Hb.
  pose proof (limit_bounds k nworkers Hk HW) as HL.
  pose proof (nstripes_bounds k nworkers Hk) as HN.
  exists (select_stripe (2 ^ k) nworkers a),
         (select_stripe (2 ^ k) nworkers b), (Z.ones (2 ^ k)).
  split; [apply (set_default_affinity_value k nworkers Hk HW); lia |].
  split; [apply (set_default_affinity_value k nworkers Hk HW); lia |].
  rewrite !(select_stripe_spillover k nworkers Hk HW) by lia.
  set (L := nworkers / 2 ^ k * 2 ^ k) in *.
  set (S := nworkers - L) in *.
  assert (HS : 0 < S) by lia.
  apply Z.lt_le_trans with (((a - L) * 2 ^ k + S) / S).
  - replace ((a - L) * 2 ^ k + S) with ((a - L) * 2 ^ k + 1 * S) by lia.
    rewrite Z.div_add by lia. lia.
  - apply Z.div_le_mono; [lia |]. nia.
Qed.

Lemma spillover_workers_spread_witness :
  exists index_a index_b map,
    set_default_affinity (2 ^ 2) 7 4 = Some (index_a, map) /\
    set_default_affinity (2 ^ 2) 7 5 = Some (index_b, map) /\
    index_a < index_b.
Proof.
  apply (spillover_workers_spread 2 7 4 5); vm_compute;
    first [reflexivity | discriminate | split; discriminate
           | split; [discriminate | reflexivity]].
Defined.

Example worker_affinity_of_seven :
  map (worker_affinity 16 7) (worker_ids 7)
  = [Some (0, 15); Some (1, 15); Some (2, 15); Some (3, 15);
     Some (0, 15); Some (1, 15); Some (2, 15)].
Proof. vm_compute. reflexivity. Qed.

End ZMarkStripesFacts.
(** ** The timeout of the mark end context *)

Module ZMarkEndContextFacts.
Import Machine ZMarkEndContext.

Lemma checked_calls_succ (n : nat) :
  checked_calls (S n)
  = checked_calls n ++ (if (S n mod 100 =? 0)%nat then [S n] else []).
Proof.
  unfold checked_calls. rewrite seq_S, filter_app. cbn [filter Nat.add].
  destruct (S n mod 100 =? 0)%nat; reflexivity.
Qed.

Lemma deadline_seen_succ (clock : nat -> Z) (c : t) (n : nat) :
  deadline_seen clock c (S n)
  = deadline_seen clock c n
    || ((S n mod 100 =? 0)%nat
        && (_timeout_end c <=? wrap64 (clock (S n)))).
Proof.
  unfold deadline_seen. rewrite checked_calls_succ, existsb_app.
  destruct (S n mod 100 =? 0)%nat; cbn [existsb andb];
    rewrite ?orb_false_r; reflexivity.
Qed.

Lemma multiple_of_interval (n : nat) :
  (n mod 100 =? 0)%nat = (Z.of_nat n mod 100 =? 0).
Proof.
  destruct (Nat.eqb_spec (n mod 100) 0) as [H | H];
    destruct (Z.eqb_spec (Z.of_nat n mod 100) 0) as [H' | H'];
    try reflexivity; exfalso.
  - apply H'. change 100 with (Z.of_nat 100).
    rewrite <- Nat2Z.inj_mod, H. reflexivity.
  - apply H. apply Nat2Z.inj. rewrite Nat2Z.inj_mod. exact H'.
Qed.

(** What the fields are after [n] calls. *)
Lemma after_calls_fields (elapsed_counter timeout : Z) (clock : nat -> Z)
      (n : nat) :
  Z.of_nat n < 2 ^ 64 - 100 ->
  let c := construct elapsed_counter timeout in
  let c' := after_calls clock n c in
  _timeout_end c' = _timeout_end c /\
  _timeout_check_interval c' = 100 /\
  _timeout_check_count c' = Z.of_nat n /\
  _timeout_expired c' = deadline_seen clock c n /\
  _timeout_check_at c' mod 100 = 0 /\
  0 < _timeout_check_at c' <= Z.of_nat n + 100 /\
  (if _timeout_expired c' then _timeout_check_at c' <= Z.of_nat n
   else Z.of_nat n < _timeout_check_at c').
Proof.
  cbv zeta. induction n as [| n IH]; intros Hn.
  - cbn. repeat split; lia.
  - destruct (IH ltac:(lia)) as [He [Hi [Hc [Hx [Hm [Hat Hlive]]]]]].
    cbn [after_calls]. rewrite deadline_seen_succ, multiple_of_interval.
    set (c := construct elapsed_counter timeout) in *.
    set (c' := after_calls clock n c) in *.
    unfold should_timeout. rewrite Hc, Hi, He.
    assert (Hcount : wrap64 (Z.of_nat n + 1) = Z.of_nat (S n))
      by (unfold wrap64; rewrite Z.mod_small; lia).
    rewrite Hcount.
    destruct (Z.eqb_spec (Z.of_nat (S n)) (_timeout_check_at c')) as [Hq | Hq].
    + assert (Hmul : Z.of_nat (S n) mod 100 = 0) by (rewrite Hq; exact Hm).
      rewrite Hmul, Z.eqb_refl. cbn [andb].
      assert (Hexp : _timeout_expired c' = false)
        by (destruct (_timeout_expired c'); [lia | reflexivity]).
      destruct (_timeout_end c <=? wrap64 (clock (S n))) eqn:Hnow;
        cbn [snd _timeout_end _timeout_check_interval _timeout_check_count
             _timeout_expired _timeout_check_at].
      * rewrite orb_true_r. repeat split; try lia; try assumption.
      * rewrite orb_false_r.
        assert (Hnext : wrap64 (_timeout_check_at c' + 100)
                        = _timeout_check_at c' + 100)
          by (unfold wrap64; rewrite Z.mod_small; lia).
        rewrite Hnext, Hexp. repeat split; try lia; try congruence.
        rewrite <- Z.add_mod_idemp_l, Hm by lia. reflexivity.
    + cbn [snd _timeout_end _timeout_check_interval _timeout_check_count
           _timeout_expired _timeout_check_at].
      destruct (_timeout_expired c') eqn:Hexp.
      * rewrite <- Hx. cbn [orb]. repeat split; try lia; try assumption.
      * assert (Hnot : Z.of_nat (S n) mod 100 <> 0).
        { clear - Hm Hat Hlive Hq. intros H.
          Z.to_euclidean_division_equations. lia. }
        destruct (Z.eqb_spec (Z.of_nat (S n) mod 100) 0) as [H | _];
          [contradiction |].
        cbn [andb]. rewrite orb_false_r.
        repeat split; try lia; try assumption.
Qed.

Lemma deadline_seen_early (clock : nat -> Z) (c : t) (n : nat) :
  (n < 100)%nat -> deadline_seen clock c n = false.
Proof.
  induction n as [| n IH]; intros Hn; [reflexivity |].
  rewrite deadline_seen_succ, IH by lia.
  rewrite Nat.mod_small by lia. reflexivity.
Qed.

Lemma deadline_seen_latches (clock : nat -> Z) (c : t) (n m : nat) :
  (n <= m)%nat -> deadline_seen clock c n = true ->
  deadline_seen clock c m = true.
Proof.
  induction 1 as [| m _ IH]; intros H; [exact H |].
  rewrite deadline_seen_succ, (IH H). reflexivity.
Qed.

(** X12: a mark end context answers [true] to call number [n] of
    [should_timeout] exactly when the clock had reached the end of the
    timeout in one of the calls up to [n] whose number is a multiple of
    100: it looks at the clock in no other call, so it answers [false]
    to the first 99 calls whatever the clock shows, and once it has
    answered [true] it keeps doing so. *)
Theorem should_timeout_checks_every_100
        (elapsed_counter timeout : Z) (clock : nat -> Z) (n : nat) :
  (1 <= n)%nat -> Z.of_nat n < 2 ^ 64 - 100 ->
  let c := construct elapsed_counter timeout in
  answer clock n c = deadline_seen clock c n /\
  (reads_clock (after_calls clock (pred n) c) = true ->
   (n mod 100 = 0)%nat) /\
  ((n < 100)%nat -> answer clock n c = false) /\
  (forall m, (n <= m)%nat -> Z.of_nat m < 2 ^ 64 - 100 ->
             answer clock n c = true -> answer clock m c = true).
Proof.
  intros H1 Hn. cbv zeta.
  set (c := construct elapsed_counter timeout).
  assert (Hanswer : forall i, (1 <= i)%nat -> Z.of_nat i < 2 ^ 64 - 100 ->
                              answer clock i c = deadline_seen clock c i).
  { intros i Hi Hbound. destruct i as [| i]; [lia |].
    destruct (after_calls_fields elapsed_counter timeout clock (S i) Hbound)
      as [_ [_ [_ [Hx _]]]].
    fold c in Hx. rewrite <- Hx. unfold answer. cbn [pred after_calls].
    unfold should_timeout. reflexivity. }
  split; [apply Hanswer; assumption |]. split; [| split].
  - destruct n as [| n]; [lia |]. cbn [pred].
    destruct (after_calls_fields elapsed_counter timeout clock n
                                 ltac:(lia))
      as [_ [_ [Hc [_ [Hm [Hat _]]]]]].
    fold c in Hc, Hm, Hat. unfold reads_clock. rewrite Hc.
    unfold wrap64. rewrite Z.mod_small by lia. intros Hq.
    apply Z.eqb_eq in Hq.
    assert (Hz : Z.of_nat (S n) mod 100 = 0)
      by (replace (Z.of_nat (S n)) with (Z.of_nat n + 1) by lia;
          rewrite Hq; exact Hm).
    pose proof (multiple_of_interval (S n)) as Hmul.
    rewrite Hz in Hmul. cbn [Z.eqb] in Hmul. apply Nat.eqb_eq. exact Hmul.
  - intros Hearly. rewrite Hanswer by assumption.
    apply deadline_seen_early. exact Hearly.
  - intros m Hm Hbound. rewrite !Hanswer by (assumption || lia).
    apply deadline_seen_latches. exact Hm.
Qed.

Lemma should_timeout_checks_every_100_witness :
  answer (fun i => Z.of_nat i) 250 (construct 0 150)
  = deadline_seen (fun i => Z.of_nat i) (construct 0 150) 250.
Proof.
  exact (proj1 (should_timeout_checks_every_100
                  0 150 (fun i => Z.of_nat i) 250
                  ltac:(lia) ltac:(lia))).
Defined.

Example should_timeout_overshoots :
  map (fun n => answer (fun i => Z.of_nat i) n (construct 0 150))
      [99; 100; 150; 199; 200; 201]%nat
  = [false; false; false; false; true; true].
Proof. vm_compute. reflexivity. Qed.

End ZMarkEndContextFacts.
(** ** The limits of the allocation rate rules *)

Module ZDirectorLaws.
Import Machine ZDirector.

Lemma clamp_upper (value lo hi : Z) : clamp value lo hi <= hi.
Proof.
  unfold clamp, MIN2, MAX2.
  repeat match goal with
         | |- context [?a <? ?b] => destruct (Z.ltb_spec a b)
         end; lia.
Qed.

Lemma clamp_lower (value lo hi bound : Z) :
  bound <= lo -> bound <= hi -> bound <= clamp value lo hi.
Proof.
  intros Hlo Hhi. unfold clamp, MIN2, MAX2.
  repeat match goal with
         | |- context [?a <? ?b] => destruct (Z.ltb_spec a b)
         end; lia.
Qed.

Lemma MAX2_lower (a b : Z) : a <= MAX2 a b /\ b <= MAX2 a b.
Proof. unfold MAX2. destruct (Z.ltb_spec b a); lia. Qed.

Section Rules.
Context {D : Type} {ops : DoubleOps D}.
Variable s : State D.

Lemma discrete_gc_workers_limits (gc_workers : D) :
  1 <= ConcGCThreads s ->
  1 <= discrete_gc_workers s gc_workers <= ConcGCThreads s.
Proof.
  intros HC. unfold discrete_gc_workers.
  split; [apply clamp_lower; lia | apply clamp_upper].
Qed.

Lemma rule_allocation_rate_dynamic_limits :
  is_time_trustable s = true -> 1 <= ConcGCThreads s ->
  let request := rule_allocation_rate_dynamic s in
  1 <= nworkers request <= ConcGCThreads s /\
  (cause request = _no_gc -> nworkers request <= last_active_workers s) /\
  (cause request = _no_gc \/ cause request = _z_allocation_rate).
Proof.
  intros Htrust HC. cbv zeta. unfold rule_allocation_rate_dynamic.
  rewrite Htrust. cbn [negb].
  match goal with
  | |- context [discrete_gc_workers s ?g] =>
      pose proof (discrete_gc_workers_limits g HC) as Hlim;
      set (actual := discrete_gc_workers s g) in *
  end.
  destruct (actual <=? last_active_workers s) eqn:Hle; cbn [andb].
  - apply Z.leb_le in Hle.
    match goal with |- context [if ?c then _ else _] => destruct c end;
      cbn [nworkers cause]; repeat split; try lia; try discriminate;
      auto.
  - cbn [nworkers cause]. repeat split; try lia; try discriminate; auto.
Qed.

Lemma rule_allocation_rate_dynamic_orig_limits :
  is_time_trustable s = true -> 1 <= ConcGCThreads s ->
  last_active_workers s <= ConcGCThreads s ->
  let request := rule_allocation_rate_dynamic_orig s in
  1 <= nworkers request <= ConcGCThreads s /\
  (cause request = _no_gc -> nworkers request <= last_active_workers s) /\
  (cause request = _no_gc \/ cause request = _z_allocation_rate).
Proof.
  intros Htrust HC Hlast. cbv zeta. unfold rule_allocation_rate_dynamic_orig.
  rewrite Htrust. cbn [negb].
  match goal with
  | |- context [let '(_, _) := ?pair in _] =>
      assert (Hn : 1 <= snd pair <= ConcGCThreads s);
      [| destruct pair as [time_till_oom n]; cbn [snd] in Hn]
  end.
  { match goal with
    | |- context [clamp ?v 1 (ConcGCThreads s)] =>
        pose proof (clamp_lower v 1 (ConcGCThreads s) 1
                      ltac:(lia) ltac:(lia)) as Hmin1;
        pose proof (clamp_upper v 1 (ConcGCThreads s)) as Hmin2;
        set (min_n := clamp v 1 (ConcGCThreads s)) in *
    end.
    match goal with |- context [if ?c then _ else _] => destruct c end;
      cbn [snd].
    - pose proof (MAX2_lower min_n (last_active_workers s)) as [H1 _].
      split; [apply clamp_lower; lia | apply clamp_upper].
    - match goal with
      | |- context [clamp ?v min_n (ConcGCThreads s)] =>
          pose proof (clamp_lower v min_n (ConcGCThreads s) min_n
                        ltac:(lia) ltac:(lia)) as Hn1;
          pose proof (clamp_upper v min_n (ConcGCThreads s)) as Hn2;
          set (n := clamp v min_n (ConcGCThreads s)) in *
      end.
      destruct (Z.ltb_spec n (last_active_workers s)) as [Hlt | Hge];
        cbn [snd]; [| lia].
      split.
      + apply clamp_lower; lia.
      + etransitivity; [apply clamp_upper | exact Hlast]. }
  destruct (Z.ltb_spec (last_active_workers s) n) as [Hlt | Hge];
    cbn [orb].
  - cbn [nworkers cause]. repeat split; try lia; try discriminate; auto.
  - match goal with |- context [if ?c then _ else _] => destruct c end;
      cbn [nworkers cause]; repeat split; try lia; try discriminate; auto.
Qed.

(** X14: with a dynamic number of threads, and once the cycle times
    can be trusted, the allocation rate rule asks for at least one and
    at most [ConcGCThreads] workers, whatever the statistics are, in
    both variants; its cause is [_z_allocation_rate] or [_no_gc], and
    it answers [_no_gc] only with at most as many workers as the last
    cycle had. *)
Theorem rule_allocation_rate_workers_within_limits :
  UseDynamicNumberOfGCThreads s = true ->
  is_time_trustable s = true ->
  1 <= ConcGCThreads s ->
  last_active_workers s <= ConcGCThreads s ->
  let request := rule_allocation_rate s in
  1 <= nworkers request <= ConcGCThreads s /\
  (cause request = _no_gc -> nworkers request <= last_active_workers s) /\
  (cause request = _no_gc \/ cause request = _z_allocation_rate).
Proof.
  intros Hdyn Htrust HC Hlast. cbv zeta. unfold rule_allocation_rate.
  rewrite Hdyn. destruct (UseNewCode s).
  - exact (rule_allocation_rate_dynamic_limits Htrust HC).
  - exact (rule_allocation_rate_dynamic_orig_limits Htrust HC Hlast).
Qed.

(** X15: the free memory of the rules is what is left of the soft
    maximal capacity after the memory used and the relocation headroom,
    and zero when nothing is left: neither subtraction of the rule
    wraps. *)
Theorem free_memory_saturates :
  0 <= soft_max_capacity s -> 0 <= used s -> 0 <= relocation_headroom s ->
  free_memory s
  = Z.max 0 (soft_max_capacity s - used s - relocation_headroom s) /\
  0 <= free_memory s <= soft_max_capacity s.
Proof.
  intros Hsoft Hused Hhead. unfold free_memory, MIN2.
  repeat match goal with
         | |- context [?a <? ?b] => destruct (Z.ltb_spec a b)
         end; lia.
Qed.

End Rules.

Lemma rule_allocation_rate_workers_within_limits_witness :
  1 <= nworkers (rule_allocation_rate (scenario 2147483648)) <= 8.
Proof.
  exact (proj1 (rule_allocation_rate_workers_within_limits
                  (scenario 2147483648) eq_refl eq_refl
                  ltac:(cbn; lia) ltac:(cbn; lia))).
Defined.

Lemma free_memory_saturates_witness :
  free_memory (scenario 2147483648) = 2147483648.
Proof.
  exact (proj1 (free_memory_saturates (scenario 2147483648)
                  ltac:(cbn; lia) ltac:(cbn; lia) ltac:(cbn; lia))).
Defined.

End ZDirectorLaws.
(** ** Marking and following one entry *)

Module ZMarkObjectLaws.
Import Machine Align AlignFacts ZMarkObject.

Section WithHeap.
Context {heap : Heap}.

Lemma try_mark_object_cases (marks : marking) (cache : ZMarkCache)
      (addr : Z) (finalizable : bool) :
  let page := page_table_get addr in
  let marked := mark_object page addr finalizable marks in
  try_mark_object marks cache addr finalizable
  = if is_allocating page then (false, marks, cache)
    else (fst (fst marked), snd marked,
          if snd (fst marked)
          then (page, align_up (object_size addr) (object_alignment page))
               :: cache
          else cache).
Proof.
  cbv zeta. unfold try_mark_object, align_up_object.
  destruct (is_allocating (page_table_get addr)); [reflexivity |].
  destruct (mark_object (page_table_get addr) addr finalizable marks)
    as [[success inc_live] marks'].
  destruct inc_live; reflexivity.
Qed.

(** X17: [try_mark_object] adds to the live bytes of a worker at most
    one entry, for the page of the object and only when the page is not
    allocating and [mark_object] asks for it; the bytes it adds are the
    size of the object rounded up to the object alignment of the page:
    a multiple of the alignment, at least the size and less than the
    size plus the alignment. *)
Theorem try_mark_object_live_bytes
        (marks : marking) (cache : ZMarkCache) (addr : Z)
        (finalizable : bool) (shift : Z) :
  let page := page_table_get addr in
  0 <= shift ->
  object_alignment page = 2 ^ shift ->
  0 <= object_size addr ->
  object_size addr + 2 ^ shift - 1 < 2 ^ 64 ->
  let cache' := snd (try_mark_object marks cache addr finalizable) in
  cache' = cache \/
  exists bytes,
    cache' = (page, bytes) :: cache /\
    is_allocating page = false /\
    snd (fst (mark_object page addr finalizable marks)) = true /\
    bytes mod 2 ^ shift = 0 /\
    object_size addr <= bytes < object_size addr + 2 ^ shift.
Proof.
  intros page Hshift Hal Hsize Hfit cache'. subst cache'.
  rewrite try_mark_object_cases. cbv zeta. fold page.
  destruct (is_allocating page) eqn:Halloc; [left; reflexivity |].
  cbn [snd].
  destruct (snd (fst (mark_object page addr finalizable marks))) eqn:Hinc;
    [right | left; reflexivity].
  eexists. split; [reflexivity |]. split; [reflexivity |].
  split; [reflexivity |].
  rewrite Hal, align_up_pow2 by assumption.
  assert (Hp : 0 < 2 ^ shift) by (apply Z.pow_pos_nonneg; lia).
  split.
  - rewrite Z.mul_comm. apply Z.mod_mul. lia.
  - pose proof (Z.div_mod (object_size addr + 2 ^ shift - 1) (2 ^ shift)
                          ltac:(lia)).
    pose proof (Z.mod_pos_bound (object_size addr + 2 ^ shift - 1)
                                (2 ^ shift) Hp).
    lia.
Qed.

(** X18: [mark_and_follow] follows a partial array entry without
    touching the mark bits or the live bytes; it follows an object only
    when [try_mark_object] has marked it in this call, so never an
    object on an allocating page and never one that was marked before;
    and of the object arrays it marks it follows those whose entry has
    the follow flag. *)
Theorem mark_and_follow_only_marked
        (marks : marking) (cache : ZMarkCache) (entry : ZMarkStackEntry) :
  let '(marks', cache', followed) := mark_and_follow marks cache entry in
  match entry with
  | Partial partial =>
      marks' = marks /\ cache' = cache /\
      followed = [FollowPartialArray partial]
  | Object addr follow finalizable =>
      (followed <> [] ->
       is_allocating (page_table_get addr) = false /\
       fst (fst (mark_object (page_table_get addr) addr finalizable marks))
       = true) /\
      (followed = [] \/
       (followed = [FollowArrayObject addr finalizable] /\
        is_array addr = true /\ follow = true) \/
       (followed = [FollowObject addr finalizable] /\
        is_array addr = false))
  end.
Proof.
  destruct entry as [addr follow finalizable | partial];
    [| cbn; repeat split].
  unfold mark_and_follow.
  pose proof (try_mark_object_cases marks cache addr finalizable) as Hcases.
  cbv zeta in Hcases.
  destruct (try_mark_object marks cache addr finalizable)
    as [[success marks'] cache'] eqn:Htry.
  assert (Hmarked :
            success = true ->
            is_allocating (page_table_get addr) = false /\
            fst (fst (mark_object (page_table_get addr) addr finalizable
                                  marks)) = true).
  { intros ->.
    destruct (is_allocating (page_table_get addr)); [discriminate |].
    split; [reflexivity |]. congruence. }
  destruct success; cbn [negb].
  - destruct (is_array addr) eqn:Harray; [destruct follow |].
    + split; [intros _; apply Hmarked; reflexivity |].
      right. left. repeat split.
    + split; [intros H; contradiction | left; reflexivity].
    + split; [intros _; apply Hmarked; reflexivity |].
      right. right. split; reflexivity.
  - split; [intros H; contradiction | left; reflexivity].
Qed.

End WithHeap.

Lemma try_mark_object_live_bytes_witness :
  snd (@try_mark_object two_pages [] [] 16 false) = [] \/
  exists bytes,
    snd (@try_mark_object two_pages [] [] 16 false) = [(0, bytes)] /\
    24 <= bytes < 32.
Proof.
  destruct (@try_mark_object_live_bytes two_pages [] [] 16 false 3
              ltac:(lia) eq_refl ltac:(cbn; lia) ltac:(cbn; lia))
    as [H | [bytes [H [_ [_ [_ Hb]]]]]].
  - left. exact H.
  - right. exists bytes. split; [exact H | exact Hb].
Defined.

End ZMarkObjectLaws.
